(** * telas2: [js/global.js]

    A shallow embedding of the layout, navigation and authentication glue of
    [src/js/global.js], and the properties of it that the specification
    states.

    Conventions of the model.
    - A JavaScript string is a Rocq [string]; its characters stand for the
      code units below 256.  Decoded JSON text, which can hold any 16-bit
      code unit through a [\u] escape, is a list of code units ([list N]).
    - The page is a record [Page] of the browser state the script reads and
      writes (location, document, [localStorage], [window.currentUser],
      console, the requests issued so far, listeners and timers).
    - A function of the script is a computation [M A]: it takes a [Page] and
      gives back a completion (normal, or an exception thrown) and the page
      it leaves.  [async] functions are run to completion: an [await] is the
      place where the environment's answer is taken, and the answer comes.
      For [logout], whose order of steps matters, the page is also open at
      its [await] to the other tasks of the event loop ([logoutPending]).
    - What the browser and the server do is not code of the script: the HTML
      parser and the server's answers are variables of a [Section]. *)

From Stdlib Require Import Ascii String.
From stdpp Require Import base option list gmap strings.

Open Scope string_scope.
Open Scope list_scope.

(** ** Strings *)

Module Str.

(** The character [U+0022], the double quote. *)
Definition dquote : ascii := "034"%char.

(** [s.includes(needle)]. *)
Fixpoint includes (needle s : string) : bool :=
  if String.prefix needle s then true
  else match s with
       | EmptyString => false
       | String _ r => includes needle r
       end.

(** [s.split(sep)] for a separator of one character. *)
Fixpoint split (sep : ascii) (s : string) : list string :=
  match s with
  | EmptyString => [EmptyString]
  | String c r =>
      if Ascii.eqb c sep then EmptyString :: split sep r
      else match split sep r with
           | h :: t => String c h :: t
           | [] => [String c EmptyString]
           end
  end.

(** A JavaScript string is truthy when it is not empty; [null] (here
    [None], what [getItem] gives for a missing key) is falsy. *)
Definition truthy (v : option string) : bool :=
  match v with
  | Some (String _ _) => true
  | _ => false
  end.

(** Text written with apostrophes where the JSON has double quotes. *)
Fixpoint quoted (s : string) : string :=
  match s with
  | EmptyString => EmptyString
  | String c r => String (if Ascii.eqb c "'"%char then dquote else c) (quoted r)
  end.

End Str.

(** ** Values a property read can give *)

(** [obj[key]] on an object literal whose values are strings: the own value,
    a member inherited from [Object.prototype], or [undefined]. *)
Inductive PropertyValue :=
| Undefined
| Own (s : string)
| Inherited (name : string).

(** The property names of [Object.prototype] (ECMA-262, 20.1.3 and B.2.2). *)
Definition objectPrototypeKeys : list string :=
  [ "constructor"; "hasOwnProperty"; "isPrototypeOf"; "propertyIsEnumerable";
    "toLocaleString"; "toString"; "valueOf"; "__proto__";
    "__defineGetter__"; "__defineSetter__"; "__lookupGetter__"; "__lookupSetter__" ].

(** [obj[key]], the own properties first and [Object.prototype] after. *)
Definition getProperty (own : gmap string string) (key : string) : PropertyValue :=
  match own !! key with
  | Some v => Own v
  | None => if bool_decide (key ∈ objectPrototypeKeys) then Inherited key else Undefined
  end.

(** Every member of [Object.prototype] is a function or an object: truthy. *)
Definition truthyValue (v : PropertyValue) : bool :=
  match v with
  | Undefined => false
  | Own s => Str.truthy (Some s)
  | Inherited _ => true
  end.

(** ** Path resolver and page navigator *)

(** [getBasePath]: ['/' + path.split('/')[1]]; a missing element reads as
    [undefined], which [+] turns into the text [undefined]. *)
Definition getBasePath (path : string) : string :=
  "/" +:+ default "undefined" (Str.split "/" path !! 1%nat).

(** [isAdminContext]. *)
Definition isAdminContext (path : string) : bool :=
  Str.includes "/admin/" path.

(** The object literal [pageMap] of [getPageUrl]. *)
Definition pageMap (basePath : string) : gmap string string :=
  list_to_map
    [ ("dashboard_admin", basePath +:+ "/admin/dashboard_admin.html");
      ("nova-camara", basePath +:+ "/admin/nova_camara.html");
      ("novo-partido", basePath +:+ "/admin/novo_partido.html");
      ("partidos", basePath +:+ "/admin/partidos.html");
      ("configuracoes", basePath +:+ "/admin/configuracoes.html");
      ("relatorios", basePath +:+ "/admin/relatorios.html");
      ("dashboard", basePath +:+ "/app/dashboard.html");
      ("cadastro", basePath +:+ "/app/cadastro_de_pautas.html");
      ("nova_pauta", basePath +:+ "/app/nova_pauta.html");
      ("editar_pauta", basePath +:+ "/app/editar_pauta.html");
      ("vereadores", basePath +:+ "/app/vereadores.html");
      ("editar_vereador", basePath +:+ "/app/editar_vereador.html");
      ("ordem_do_dia", basePath +:+ "/app/ordem_do_dia.html");
      ("relatorio", basePath +:+ "/app/relatorio.html");
      ("perfil", basePath +:+ "/app/perfil_camara.html");
      ("sessoes", basePath +:+ "/app/sessoes.html") ].

(** [getPageUrl(pageName)] on a page whose [location.pathname] is [path]. *)
Definition getPageUrl (path : string) (pageName : string) : PropertyValue :=
  let basePath := getBasePath path in
  let key :=
    if isAdminContext path && String.eqb pageName "dashboard"
    then "dashboard_admin" else pageName in
  getProperty (pageMap basePath) key.


(** ** JSON text and [JSON.parse] *)

(** A value [JSON.parse] can give.  A number keeps its numeral (the value
    of the double it denotes is not used by the script); two members of an
    object may have the same name: reading the property gives the last. *)
Unset Elimination Schemes.
Inductive JSON :=
| JNull
| JBool (b : bool)
| JNumber (numeral : string)
| JString (units : list N)
| JArray (items : list JSON)
| JObject (members : list (list N * JSON)).
Set Elimination Schemes.

Module Json.

(** The code units of a text. *)
Definition units (s : string) : list N :=
  N_of_ascii <$> list_ascii_of_string s.

Inductive Parsed (A : Type) :=
| Ok (a : A) (rest : string)
| SyntaxError
| OutOfFuel.
Arguments Ok {A} a rest.
Arguments SyntaxError {A}.
Arguments OutOfFuel {A}.

Definition andThen {A B} (p : Parsed A) (k : A → string → Parsed B) : Parsed B :=
  match p with
  | Ok a rest => k a rest
  | SyntaxError => SyntaxError
  | OutOfFuel => OutOfFuel
  end.

(** JSON white space: tab, line feed, carriage return, space. *)
Definition isWs (c : ascii) : bool :=
  match c with
  | "009"%char | "010"%char | "013"%char | " "%char => true
  | _ => false
  end.

Fixpoint skipWs (s : string) : string :=
  match s with
  | String c r => if isWs c then skipWs r else s
  | EmptyString => s
  end.

Definition isDigit (c : ascii) : bool :=
  (48 <=? N_of_ascii c)%N && (N_of_ascii c <=? 57)%N.

Definition hexValue (c : ascii) : option N :=
  let n := N_of_ascii c in
  if (48 <=? n)%N && (n <=? 57)%N then Some (n - 48)%N
  else if (65 <=? n)%N && (n <=? 70)%N then Some (n - 55)%N
  else if (97 <=? n)%N && (n <=? 102)%N then Some (n - 87)%N
  else None.

(** The longest run of digits at the head of [s], and what follows it. *)
Fixpoint digits (s : string) : string * string :=
  match s with
  | String c r =>
      if isDigit c then let '(ds, rest) := digits r in (String c ds, rest)
      else (EmptyString, s)
  | EmptyString => (EmptyString, s)
  end.

(** The code unit that a one-letter escape names. *)
Definition escapeUnit (e : ascii) : option N :=
  if Ascii.eqb e Str.dquote then Some 34%N
  else if Ascii.eqb e "\"%char then Some 92%N
  else if Ascii.eqb e "/"%char then Some 47%N
  else if Ascii.eqb e "b"%char then Some 8%N
  else if Ascii.eqb e "f"%char then Some 12%N
  else if Ascii.eqb e "n"%char then Some 10%N
  else if Ascii.eqb e "r"%char then Some 13%N
  else if Ascii.eqb e "t"%char then Some 9%N
  else None.

(** The code unit that four hexadecimal digits name. *)
Definition hexUnit (h1 h2 h3 h4 : ascii) : option N :=
  a ← hexValue h1; b ← hexValue h2; c ← hexValue h3; d ← hexValue h4;
  Some ((((a * 16 + b) * 16 + c) * 16 + d)%N).

(** The characters of a string after its opening quote, up to the closing
    one; an escape gives the code unit it names. *)
Fixpoint stringBody (s : string) : Parsed (list N) :=
  match s with
  | EmptyString => SyntaxError
  | String c r =>
      if Ascii.eqb c Str.dquote then Ok [] r
      else if Ascii.eqb c "\"%char then
        match r with
        | String e r' =>
            match escapeUnit e with
            | Some u => andThen (stringBody r') (λ us rest, Ok (u :: us) rest)
            | None =>
                if Ascii.eqb e "u"%char then
                  match r' with
                  | String h1 (String h2 (String h3 (String h4 r''))) =>
                      match hexUnit h1 h2 h3 h4 with
                      | Some u => andThen (stringBody r'') (λ us rest, Ok (u :: us) rest)
                      | None => SyntaxError
                      end
                  | _ => SyntaxError
                  end
                else SyntaxError
            end
        | EmptyString => SyntaxError
        end
      else if (N_of_ascii c <? 32)%N then SyntaxError
      else andThen (stringBody r) (λ us rest, Ok (N_of_ascii c :: us) rest)
  end.

(** A numeral: an optional minus sign, an integer part with no leading
    zero, an optional fraction and an optional exponent (ECMA-404). *)
Definition fraction (s : string) : Parsed string :=
  match s with
  | String c r =>
      if Ascii.eqb c "."%char then
        match digits r with
        | (EmptyString, _) => SyntaxError
        | (ds, rest) => Ok (String c ds) rest
        end
      else Ok EmptyString s
  | EmptyString => Ok EmptyString s
  end.

Definition sign (s : string) : string * string :=
  match s with
  | String c r =>
      if Ascii.eqb c "+"%char || Ascii.eqb c "-"%char then (String c EmptyString, r)
      else (EmptyString, s)
  | EmptyString => (EmptyString, s)
  end.

Definition exponent (s : string) : Parsed string :=
  match s with
  | String e r =>
      if Ascii.eqb e "e"%char || Ascii.eqb e "E"%char then
        let '(sg, r1) := sign r in
        match digits r1 with
        | (EmptyString, _) => SyntaxError
        | (ds, rest) => Ok (String e (sg +:+ ds)) rest
        end
      else Ok EmptyString s
  | EmptyString => Ok EmptyString s
  end.

Definition integer (s : string) : Parsed string :=
  match s with
  | String c r =>
      if Ascii.eqb c "0"%char then Ok "0" r
      else if isDigit c then let '(ds, rest) := digits r in Ok (String c ds) rest
      else SyntaxError
  | EmptyString => SyntaxError
  end.

Definition minus (s : string) : string * string :=
  match s with
  | String c r => if Ascii.eqb c "-"%char then ("-", r) else (EmptyString, s)
  | EmptyString => (EmptyString, s)
  end.

Definition number (s : string) : Parsed string :=
  let '(sg, s1) := minus s in
  andThen (integer s1) (λ i s2,
  andThen (fraction s2) (λ f s3,
  andThen (exponent s3) (λ e s4,
  Ok (sg +:+ i +:+ f +:+ e) s4))).

(** [strip word s]: what follows the word at the head of [s]. *)
Fixpoint strip (word s : string) : option string :=
  match word with
  | EmptyString => Some s
  | String a word' =>
      match s with
      | String b s' => if Ascii.eqb a b then strip word' s' else None
      | EmptyString => None
      end
  end.

(** [literal word v s]: the word at the head of [s] is the value [v]. *)
Definition literal (word : string) (v : JSON) (s : string) : Parsed JSON :=
  match strip word s with
  | Some rest => Ok v rest
  | None => SyntaxError
  end.

(** What follows an element of an array, or a member of an object. *)
Inductive Next := Comma (rest : string) | Close (rest : string) | Neither.

Definition next (close : ascii) (s : string) : Next :=
  match skipWs s with
  | String c r =>
      if Ascii.eqb c ","%char then Comma r
      else if Ascii.eqb c close then Close r
      else Neither
  | EmptyString => Neither
  end.

(** A value; the elements of an array after its bracket or a comma; the
    members of an object after its brace or a comma. *)
Fixpoint value (fuel : nat) (s : string) : Parsed JSON :=
  match fuel with
  | O => OutOfFuel
  | S fuel =>
      match skipWs s with
      | EmptyString => SyntaxError
      | String c r as s' =>
          if Ascii.eqb c Str.dquote then
            andThen (stringBody r) (λ us rest, Ok (JString us) rest)
          else if Ascii.eqb c "{"%char then
            match next "}"%char r with
            | Close rest => Ok (JObject []) rest
            | _ => andThen (members fuel r) (λ ms rest, Ok (JObject ms) rest)
            end
          else if Ascii.eqb c "["%char then
            match next "]"%char r with
            | Close rest => Ok (JArray []) rest
            | _ => andThen (elements fuel r) (λ vs rest, Ok (JArray vs) rest)
            end
          else if Ascii.eqb c "t"%char then literal "true" (JBool true) s'
          else if Ascii.eqb c "f"%char then literal "false" (JBool false) s'
          else if Ascii.eqb c "n"%char then literal "null" JNull s'
          else andThen (number s') (λ n rest, Ok (JNumber n) rest)
      end
  end
with elements (fuel : nat) (s : string) : Parsed (list JSON) :=
  match fuel with
  | O => OutOfFuel
  | S fuel =>
      andThen (value fuel s) (λ v r,
        match next "]"%char r with
        | Comma r' => andThen (elements fuel r') (λ vs rest, Ok (v :: vs) rest)
        | Close rest => Ok [v] rest
        | Neither => SyntaxError
        end)
  end
with members (fuel : nat) (s : string) : Parsed (list (list N * JSON)) :=
  match fuel with
  | O => OutOfFuel
  | S fuel =>
      match skipWs s with
      | String c r =>
          if Ascii.eqb c Str.dquote then
            andThen (stringBody r) (λ k r1,
              match skipWs r1 with
              | String c1 r2 =>
                  if Ascii.eqb c1 ":"%char then
                    andThen (value fuel r2) (λ v r3,
                      match next "}"%char r3 with
                      | Comma r4 =>
                          andThen (members fuel r4) (λ ms rest, Ok ((k, v) :: ms) rest)
                      | Close rest => Ok [(k, v)] rest
                      | Neither => SyntaxError
                      end)
                  else SyntaxError
              | EmptyString => SyntaxError
              end)
          else SyntaxError
      | EmptyString => SyntaxError
      end
  end.

(** Fuel that a text never exhausts (see [value_fuel]). *)
Definition fuelFor (s : string) : nat := 2 * String.length s + 1.

(** The whole text is one value and white space. *)
Definition document (s : string) : Parsed JSON :=
  andThen (value (fuelFor s) s) (λ v rest,
    match skipWs rest with
    | EmptyString => Ok v EmptyString
    | _ => SyntaxError
    end).

(** [JSON.parse(text)]: the value, or [None] where it throws a
    [SyntaxError]. *)
Definition parse (s : string) : option JSON :=
  match document s with
  | Ok v _ => Some v
  | _ => None
  end.

(** [o[key]] for a name that no built-in prototype defines: the own
    property, [None] for [undefined].  A JSON string, number, boolean or
    array has no own property of such a name. *)
Fixpoint lastMember (key : list N) (ms : list (list N * JSON)) : option JSON :=
  match ms with
  | [] => None
  | (k, v) :: rest =>
      match lastMember key rest with
      | Some v' => Some v'
      | None => if bool_decide (k = key) then Some v else None
      end
  end.

(** [ToString(v)] throws a [TypeError]: only when no callable [toString]
    or [valueOf] gives a primitive.  An object finds [toString] on
    [Object.prototype] unless it has an own member of that name (never
    callable, and [valueOf] then gives the object back); an array joins
    the texts of its elements, [null] counting as empty. *)
Fixpoint toStringThrows (v : JSON) : bool :=
  match v with
  | JObject ms => bool_decide (units "toString" ∈ ms.*1)
  | JArray vs => existsb toStringThrows vs
  | _ => false
  end.

End Json.


(** ** The document *)

(** A node of the document tree: an element with its tag, its attributes in
    source order and its children, or a text node. *)
Unset Elimination Schemes.
Inductive Node :=
| Element (tag : string) (attrs : list (string * string)) (children : list Node)
| TextNode (data : string).
Set Elimination Schemes.

(** A reference to an element is the path to it from the root: the index of
    a child at every level. *)
Abbreviation Path := (list nat).

Module Dom.

(** A simple selector looks at the tag and the attributes of an element. *)
Abbreviation Selector := (string → list (string * string) → bool).

Definition matches (q : Selector) (n : Node) : bool :=
  match n with
  | Element t a _ => q t a
  | TextNode _ => false
  end.

Definition children (n : Node) : list Node :=
  match n with
  | Element _ _ cs => cs
  | TextNode _ => []
  end.

Fixpoint attribute (name : string) (a : list (string * string)) : option string :=
  match a with
  | [] => None
  | (k, v) :: rest => if String.eqb k name then Some v else attribute name rest
  end.

(** [setAttribute]: the value of the attribute is replaced where it
    stands; a new attribute goes last. *)
Fixpoint setAttribute (name value : string) (a : list (string * string)) :
  list (string * string) :=
  match a with
  | [] => [(name, value)]
  | (k, v) :: rest =>
      if String.eqb k name then (k, value) :: rest
      else (k, v) :: setAttribute name value rest
  end.

(** ASCII white space separates the tokens of a [class] attribute. *)
Definition isSpace (c : ascii) : bool :=
  match c with
  | "009"%char | "010"%char | "012"%char | "013"%char | " "%char => true
  | _ => false
  end.

Fixpoint tokensFrom (cur : string) (s : string) : list string :=
  let flush (rest : list string) :=
    match cur with EmptyString => rest | _ => cur :: rest end in
  match s with
  | EmptyString => flush []
  | String c r =>
      if isSpace c then flush (tokensFrom EmptyString r)
      else tokensFrom (cur +:+ String c EmptyString) r
  end.

(** [classList]: the tokens of the [class] attribute. *)
Definition classList (a : list (string * string)) : list string :=
  tokensFrom EmptyString (default EmptyString (attribute "class" a)).

(** The selector [.name]. *)
Definition byClass (name : string) : Selector :=
  λ _ a, bool_decide (name ∈ classList a).

(** The element [getElementById(id)] looks for; no element has the empty
    identifier. *)
Definition byId (id : string) : Selector :=
  λ _ a, match id with
         | EmptyString => false
         | _ => bool_decide (attribute "id" a = Some id)
         end.

(** The selector [a[data-page]]. *)
Definition navLink : Selector :=
  λ t a, String.eqb t "a" && bool_decide (is_Some (attribute "data-page" a)).

(** The first match among the children [l], the first of which has the
    index [i]; [find] looks into a child. *)
Definition firstAmong (find : Node → option Path) : nat → list Node → option Path :=
  fix among (i : nat) (l : list Node) : option Path :=
    match l with
    | [] => None
    | c :: r =>
        match find c with
        | Some π => Some (i :: π)
        | None => among (S i) r
        end
    end.

(** The first match of [q] in tree order, the root included. *)
Fixpoint first (q : Selector) (n : Node) : option Path :=
  match n with
  | TextNode _ => None
  | Element t a cs => if q t a then Some [] else firstAmong (first q) 0 cs
  end.

Definition allAmong (find : Node → list Path) : nat → list Node → list Path :=
  fix among (i : nat) (l : list Node) : list Path :=
    match l with
    | [] => []
    | c :: r => (cons i <$> find c) ++ among (S i) r
    end.

(** Every match of [q] in tree order, the root included. *)
Fixpoint all (q : Selector) (n : Node) : list Path :=
  match n with
  | TextNode _ => []
  | Element t a cs => (if q t a then [[]] else []) ++ allAmong (all q) 0 cs
  end.

(** [el.querySelector(q)] is not null: a match below [n], [n] excluded. *)
Fixpoint hasDescendant (q : Selector) (n : Node) : bool :=
  match n with
  | TextNode _ => false
  | Element _ _ cs => existsb (λ c, matches q c || hasDescendant q c) cs
  end.

Fixpoint nodeAt (π : Path) (n : Node) : option Node :=
  match π with
  | [] => Some n
  | i :: π' =>
      match n with
      | Element _ _ cs => c ← cs !! i; nodeAt π' c
      | TextNode _ => None
      end
  end.

(** The node at [π] replaced by its image under [f]; a path that leads
    nowhere changes nothing. *)
Fixpoint updateAt (π : Path) (f : Node → Node) (n : Node) : Node :=
  match π with
  | [] => f n
  | i :: π' =>
      match n with
      | Element t a cs => Element t a (alter (updateAt π' f) i cs)
      | TextNode _ => n
      end
  end.

(** [el.textContent = text]. *)
Definition setTextContent (text : string) (n : Node) : Node :=
  match n with
  | Element t a _ =>
      Element t a (match text with EmptyString => [] | _ => [TextNode text] end)
  | TextNode _ => TextNode text
  end.

(** [el.className = value]. *)
Definition setClassName (value : string) (n : Node) : Node :=
  match n with
  | Element t a cs => Element t (setAttribute "class" value a) cs
  | TextNode _ => n
  end.

Fixpoint joinTokens (l : list string) : string :=
  match l with
  | [] => EmptyString
  | [x] => x
  | x :: r => x +:+ " " +:+ joinTokens r
  end.

(** The ordered set of the tokens of [l]: each token where it first stands. *)
Fixpoint orderedSet (seen l : list string) : list string :=
  match l with
  | [] => []
  | x :: r =>
      if bool_decide (x ∈ seen) then orderedSet seen r
      else x :: orderedSet (x :: seen) r
  end.

(** [el.classList.add(token)]: the token joins the ordered set of the
    tokens, and the attribute is written back from the set. *)
Definition classListAdd (token : string) (n : Node) : Node :=
  match n with
  | Element t a cs =>
      let set := orderedSet [] (classList a) in
      let set' := if bool_decide (token ∈ set) then set else set ++ [token] in
      Element t (setAttribute "class" (joinTokens set') a) cs
  | TextNode _ => n
  end.

(** [document.createElement("div")] with its [className] set. *)
Definition div (className : string) (cs : list Node) : Node :=
  Element "div" [("class", className)] cs.

End Dom.

(** ** The page and the computations of the script *)

Inductive Exception :=
| Error (message : string)      (* [new Error(message)] *)
| TypeError                     (* a property read on [null], a failed [ToString] *)
| SyntaxError                   (* [JSON.parse] *)
| Rejection (reason : string).  (* a rejected promise of [fetch] or [text()] *)

Inductive Level := Log | Warn | Err.

(** What is logged after the message: texts, an exception, or values read
    from the user record ([None] for [undefined]), not rendered. *)
Inductive LogArg :=
| ArgTexts (l : list string)
| ArgException (e : Exception)
| ArgValue (v : option JSON).

Record LogEntry := { level : Level; message : string; args : list LogArg }.

Record Request := { method : string; url : string; headers : list (string * string) }.

(** The body of a response: its text, or the reason why reading it fails. *)
Inductive Body := BodyText (text : string) | BodyFailed (reason : string).

Record Response := { ok : bool; body : Body }.

(** What a [fetch] comes to: a rejection, or a response. *)
Inductive FetchOutcome := Rejected (reason : string) | Responded (r : Response).

(** An element captured by a listener. *)
Inductive Ref := Null | Detached | At (π : Path).

Inductive Listener :=
| ProfileToggle (btn : Path) (dropdown : Ref)  (* click on [profileBtn] *)
| CloseProfile (dropdown btn : Ref)            (* click on [window] *)
| Navigate (link : Path)                       (* click on an [a[data-page]] *)
| FadeIn (el : Path).                          (* observed for its fade-in *)

Record Page := {
  pathname : string;                  (* [window.location.pathname] *)
  document : Node;
  localStorage : gmap string string;
  href : option PropertyValue;        (* the value assigned to [location.href] *)
  currentUser : option JSON;          (* [window.currentUser] *)
  console : list LogEntry;            (* oldest first *)
  requests : list Request;            (* the calls of [fetch], oldest first *)
  listeners : list Listener;
  timers : list (nat * PropertyValue) (* navigations pending after a delay *)
}.

Definition withDocument (d : Node) (pg : Page) : Page :=
  {| pathname := pathname pg; document := d; localStorage := localStorage pg;
     href := href pg; currentUser := currentUser pg; console := console pg;
     requests := requests pg; listeners := listeners pg; timers := timers pg |}.

Definition withLocalStorage (m : gmap string string) (pg : Page) : Page :=
  {| pathname := pathname pg; document := document pg; localStorage := m;
     href := href pg; currentUser := currentUser pg; console := console pg;
     requests := requests pg; listeners := listeners pg; timers := timers pg |}.

Definition withHref (v : PropertyValue) (pg : Page) : Page :=
  {| pathname := pathname pg; document := document pg; localStorage := localStorage pg;
     href := Some v; currentUser := currentUser pg; console := console pg;
     requests := requests pg; listeners := listeners pg; timers := timers pg |}.

Definition withCurrentUser (v : JSON) (pg : Page) : Page :=
  {| pathname := pathname pg; document := document pg; localStorage := localStorage pg;
     href := href pg; currentUser := Some v; console := console pg;
     requests := requests pg; listeners := listeners pg; timers := timers pg |}.

Definition withConsole (l : list LogEntry) (pg : Page) : Page :=
  {| pathname := pathname pg; document := document pg; localStorage := localStorage pg;
     href := href pg; currentUser := currentUser pg; console := l;
     requests := requests pg; listeners := listeners pg; timers := timers pg |}.

Definition withRequests (l : list Request) (pg : Page) : Page :=
  {| pathname := pathname pg; document := document pg; localStorage := localStorage pg;
     href := href pg; currentUser := currentUser pg; console := console pg;
     requests := l; listeners := listeners pg; timers := timers pg |}.

Definition withListeners (l : list Listener) (pg : Page) : Page :=
  {| pathname := pathname pg; document := document pg; localStorage := localStorage pg;
     href := href pg; currentUser := currentUser pg; console := console pg;
     requests := requests pg; listeners := l; timers := timers pg |}.

Definition withTimers (l : list (nat * PropertyValue)) (pg : Page) : Page :=
  {| pathname := pathname pg; document := document pg; localStorage := localStorage pg;
     href := href pg; currentUser := currentUser pg; console := console pg;
     requests := requests pg; listeners := listeners pg; timers := l |}.

(** How a call ends: it returns, or it throws. *)
Inductive Completion (A : Type) :=
| Normal (a : A)
| Throw (e : Exception).
Arguments Normal {A} a.
Arguments Throw {A} e.

Definition M (A : Type) : Type := Page → Completion A * Page.

#[global] Instance M_ret : MRet M := λ A a pg, (Normal a, pg).

#[global] Instance M_bind : MBind M := λ A B f m pg,
  match m pg with
  | (Normal a, pg') => f a pg'
  | (Throw e, pg') => (Throw e, pg')
  end.

Definition throw {A} (e : Exception) : M A := λ pg, (Throw e, pg).

(** [try { body } catch (e) { handler }]. *)
Definition tryCatch {A} (body : M A) (handler : Exception → M A) : M A := λ pg,
  match body pg with
  | (Normal a, pg') => (Normal a, pg')
  | (Throw e, pg') => handler e pg'
  end.

Definition reads {A} (f : Page → A) : M A := λ pg, (Normal (f pg), pg).
Definition modify (f : Page → Page) : M unit := λ pg, (Normal (), f pg).

(** [arr.forEach(f)]. *)
Fixpoint forEach {A} (l : list A) (f : A → M unit) : M unit :=
  match l with
  | [] => mret ()
  | x :: r => f x;; forEach r f
  end.

(** *** The browser's interface *)

Definition consoleWrite (lv : Level) (msg : string) (a : list LogArg) : M unit :=
  modify (λ pg, withConsole (console pg ++ [{| level := lv; message := msg; args := a |}]) pg).

Definition getItem (key : string) : M (option string) :=
  reads (λ pg, localStorage pg !! key).

Definition removeItem (key : string) : M unit :=
  modify (λ pg, withLocalStorage (delete key (localStorage pg)) pg).

Definition clearStorage : M unit := modify (withLocalStorage ∅).

Definition setHref (v : PropertyValue) : M unit := modify (withHref v).

Definition setTimeout (delay : nat) (v : PropertyValue) : M unit :=
  modify (λ pg, withTimers (timers pg ++ [(delay, v)]) pg).

Definition querySelector (q : Dom.Selector) : M (option Path) :=
  reads (λ pg, Dom.first q (document pg)).

Definition querySelectorAll (q : Dom.Selector) : M (list Path) :=
  reads (λ pg, Dom.all q (document pg)).

Definition getElementById (id : string) : M (option Path) :=
  querySelector (Dom.byId id).

Definition updateElement (el : Path) (f : Node → Node) : M unit :=
  modify (λ pg, withDocument (Dom.updateAt el f (document pg)) pg).

Definition addListener (l : Listener) : M unit :=
  modify (λ pg, withListeners (listeners pg ++ [l]) pg).

(** [JSON.parse(text)]. *)
Definition jsonParse (text : string) : M JSON :=
  match Json.parse text with
  | Some v => mret v
  | None => throw SyntaxError
  end.

(** [v.name], for a name that no built-in prototype defines: a
    [TypeError] on [null], [undefined] where [v] has no such member. *)
Definition getMember (v : JSON) (name : string) : M (option JSON) :=
  match v with
  | JNull => throw TypeError
  | JObject ms => mret (Json.lastMember (Json.units name) ms)
  | _ => mret None
  end.

(** The conversion to text of a value put in a template literal. *)
Definition interpolate (v : option JSON) : M unit :=
  match v with
  | Some x => if Json.toStringThrows x then throw TypeError else mret ()
  | None => mret ()
  end.

(** ** The script *)

(** The caller's page configuration; a field left out is [undefined]. *)
Record PageConfig := {
  title : option string;
  icon : option string;
  navActive : option string
}.

(** *** Layout auto-repair *)

Module Repair.

(** The four section classes, in the order of [containerSelectors]. *)
Definition containerSelectors : list string :=
  [ "form-section"; "pautas-section"; "dashboard-section"; "content-section" ].

(** The children of an element, each with its position: the position
    tells a child from its equals. *)
Definition numbered (cs : list Node) : list (nat * Node) :=
  zip (seq 0 (length cs)) cs.

(** [mainContent.querySelectorAll(":scope > ." + selector)], then
    [containersToWrap.push] of every element, selector after selector. *)
Definition containersToWrap (cs : list Node) : list (nat * Node) :=
  flat_map
    (λ selector, filter (λ c, Dom.matches (Dom.byClass selector) c.2 = true) (numbered cs))
    containerSelectors.

Definition without (i : nat) (l : list (nat * Node)) : list (nat * Node) :=
  filter (λ c, c.1 ≠ i) l.

(** [contentArea.appendChild(container)]: the child leaves the parent it
    has, [mainContent] or [contentArea] itself, and goes last in
    [contentArea].  The state is the children of both. *)
Definition appendChild (st : list (nat * Node) * list (nat * Node)) (c : nat * Node) :
  list (nat * Node) * list (nat * Node) :=
  (without c.1 st.1, without c.1 st.2 ++ [c]).

(** The children of [mainContent] once the containers are wrapped and
    the outer wrapper is appended. *)
Definition wrap (cs : list Node) : list Node :=
  let '(kept, moved) := foldl appendChild (numbered cs, []) (containersToWrap cs) in
  kept.*2 ++ [Dom.div "page-content-wrapper" [Dom.div "content-area" moved.*2]].

(** [el.className]. *)
Definition className (n : Node) : string :=
  match n with
  | Element _ a _ => default EmptyString (Dom.attribute "class" a)
  | TextNode _ => EmptyString
  end.

(** [mainContent] with its containers wrapped. *)
Definition wrapped (m : Node) : Node :=
  match m with
  | Element t a cs => Element t a (wrap cs)
  | TextNode _ => m
  end.

End Repair.

(** [autoFixFormSectionLayout]. *)
Definition autoFixFormSectionLayout : M unit :=
  mainContent ← querySelector (Dom.byClass "main-content");
  match mainContent with
  | None => mret ()
  | Some el =>
      m ← reads (λ pg, default (TextNode EmptyString) (Dom.nodeAt el (document pg)));
      if Dom.hasDescendant (Dom.byClass "page-content-wrapper") m then mret ()
      else
        match Repair.containersToWrap (Dom.children m) with
        | [] => mret ()
        | containers =>
            consoleWrite Log
              "🔧 Auto-corrigindo layout: envolvendo containers com wrappers necessários"
              [ArgTexts (Repair.className <$> containers.*2)];;
            updateElement el Repair.wrapped
        end
  end.

(** *** Dynamic content and listeners *)

(** A reference taken before the children of [replaced] were replaced
    still points into the document unless it was to one of them. *)
Definition attached (replaced : option Path) (el : Path) : bool :=
  match replaced with
  | Some π => negb (bool_decide (π `prefix_of` el) && negb (bool_decide (π = el)))
  | None => true
  end.

(** [setupDynamicContent(pageConfig)]. *)
Definition setupDynamicContent (pageConfig : option PageConfig) : M unit :=
  match pageConfig with
  | None => mret ()
  | Some cfg =>
      headerTitle ← getElementById "header-title";
      headerIcon ← getElementById "header-icon";
      let titled := if Str.truthy (title cfg) then headerTitle else None in
      match titled with
      | Some el => updateElement el (Dom.setTextContent (default EmptyString (title cfg)))
      | None => mret ()
      end;;
      match headerIcon with
      | Some el =>
          if Str.truthy (icon cfg) && attached titled el
          then updateElement el
                 (Dom.setClassName ("fa-solid " +:+ default EmptyString (icon cfg)))
          else mret ()
      | None => mret ()
      end;;
      if Str.truthy (navActive cfg) then
        activeNavItem ← getElementById (default EmptyString (navActive cfg));
        match activeNavItem with
        | Some el => updateElement el (Dom.classListAdd "active")
        | None => mret ()
        end
      else mret ()
  end.

(** [initializeFadeInObserver]. *)
Definition initializeFadeInObserver : M unit :=
  elementsToFadeIn ← querySelectorAll (Dom.byClass "fade-in");
  match elementsToFadeIn with
  | [] => mret ()
  | _ => forEach elementsToFadeIn (λ el, addListener (FadeIn el))
  end.

(** [link.replaceWith(link.cloneNode(true))] for every link of [links]: the
    document has the same shape after it, and what was at or below a link
    is now a detached original.  A listener on such an element is lost, and
    a captured reference to one no longer points into the document. *)
Definition under (links : list Path) (el : Path) : bool :=
  existsb (λ l, bool_decide (l `prefix_of` el)) links.

Definition detach (links : list Path) (r : Ref) : Ref :=
  match r with
  | At π => if under links π then Detached else r
  | _ => r
  end.

Definition afterReplace (links : list Path) (l : Listener) : option Listener :=
  match l with
  | ProfileToggle b d => if under links b then None else Some (ProfileToggle b (detach links d))
  | CloseProfile d b => Some (CloseProfile (detach links d) (detach links b))
  | Navigate el => if under links el then None else Some l
  | FadeIn el => if under links el then None else Some l
  end.

Definition ref (el : option Path) : Ref :=
  match el with Some π => At π | None => Null end.

(** [setupEventListeners]. *)
Definition setupEventListeners : M unit :=
  profileBtn ← getElementById "profileBtn";
  profileDropdown ← getElementById "profileDropdown";
  match profileBtn, profileDropdown with
  | Some b, Some d => addListener (ProfileToggle b (At d))
  | _, _ => mret ()
  end;;
  addListener (CloseProfile (ref profileDropdown) (ref profileBtn));;
  navLinks ← querySelectorAll Dom.navLink;
  modify (λ pg, withListeners (omap (afterReplace navLinks) (listeners pg)) pg);;
  links ← querySelectorAll Dom.navLink;
  forEach links (λ link, addListener (Navigate link));;
  initializeFadeInObserver.

(** *** Navigation *)

(** [navigateToPage(pageName)]. *)
Definition navigateToPage (pageName : string) : M unit :=
  mainContent ← getElementById "mainContent";
  path ← reads pathname;
  let targetUrl := getPageUrl path pageName in
  if negb (truthyValue targetUrl) then
    consoleWrite Warn ("URL não encontrada para a página: " +:+ pageName) []
  else
    match mainContent with
    | Some el =>
        updateElement el (Dom.classListAdd "transitioning");;
        setTimeout 200 targetUrl
    | None => setHref targetUrl
    end.

(** *** Authentication guard *)

(** The value of [`${getBasePath()}/app/login.html`]. *)
Definition loginUrl (pg : Page) : PropertyValue :=
  Own (getBasePath (pathname pg) +:+ "/app/login.html").

(** [window.currentUser.name]. *)
Definition currentUserMember (name : string) : M (option JSON) :=
  user ← reads currentUser;
  match user with
  | Some v => getMember v name
  | None => throw TypeError
  end.

(** [protectPage]. *)
Definition protectPage : M unit :=
  consoleWrite Log "[AUTH_GUARD] Iniciando verificação de autenticação..." [];;
  token ← getItem "authToken";
  if negb (Str.truthy token) then
    consoleWrite Warn
      "[AUTH_GUARD] ❌ Token de autenticação não encontrado no localStorage." [];;
    consoleWrite Log
      "[AUTH_GUARD] Redirecionando para a página de login: /app/login.html" [];;
    clearStorage;;
    target ← reads loginUrl;
    setHref target;;
    throw (Error "Não autenticado, redirecionando para login.")
  else
    consoleWrite Log
      "[AUTH_GUARD] ✅ Token de autenticação encontrado. Acesso permitido." [];;
    tryCatch
      (userData ← getItem "userData";
       if Str.truthy userData then
         user ← jsonParse (default EmptyString userData);
         modify (withCurrentUser user);;
         email ← currentUserMember "email";
         interpolate email;;
         role ← currentUserMember "role";
         interpolate role;;
         consoleWrite Log "[AUTH_GUARD] Usuário logado:" [ArgValue email; ArgValue role]
       else mret ())
      (λ e,
         consoleWrite Err
           "[AUTH_GUARD] Erro ao parsear userData do localStorage:" [ArgException e];;
         clearStorage;;
         target ← reads loginUrl;
         setHref target;;
         throw (Error "Dados de usuário corrompidos, redirecionando para login.")).

(** *** Fragments, layout and logout: the functions that reach the network *)

Section Network.

(** The browser's HTML fragment parser: the children that the markup
    gives to an element of a given tag. *)
Variable parseHTML : string → string → list Node.

(** The network: what the latest call of [fetch] comes to, given every
    call made so far (the latest is last). *)
Variable server : list Request → FetchOutcome.

(** [await fetch(url, init)]. *)
Definition fetch (req : Request) : M Response := λ pg,
  let pg' := withRequests (requests pg ++ [req]) pg in
  match server (requests pg') with
  | Rejected reason => (Throw (Rejection reason), pg')
  | Responded r => (Normal r, pg')
  end.

(** [await response.text()]. *)
Definition responseText (r : Response) : M string :=
  match body r with
  | BodyText t => mret t
  | BodyFailed reason => throw (Rejection reason)
  end.

(** [el.innerHTML = markup]. *)
Definition setInnerHTML (el : Path) (markup : string) : M unit :=
  updateElement el
    (λ n, match n with
          | Element t a _ => Element t a (parseHTML t markup)
          | TextNode _ => n
          end).

(** The markup shown in place of a fragment that could not be loaded. *)
Definition errorMarkup (componentPath : string) : string :=
  ("<p style=" +:+ String Str.dquote "color:red;" +:+ String Str.dquote
     ">Erro ao carregar componente: ") +:+ componentPath +:+ "</p>".

(** [loadComponent(componentPath, targetElementId)]. *)
Definition loadComponent (componentPath targetElementId : string) : M unit :=
  targetElement ← getElementById targetElementId;
  match targetElement with
  | None => mret ()
  | Some el =>
      tryCatch
        (response ← fetch {| method := "GET"; url := componentPath; headers := [] |};
         if negb (ok response) then
           throw (Error ("Componente não encontrado: " +:+ componentPath))
         else
           text ← responseText response;
           setInnerHTML el text)
        (λ error,
           consoleWrite Err "Erro ao carregar componente:" [ArgException error];;
           setInnerHTML el (errorMarkup componentPath))
  end.

(** [initLayout(pageConfig)]. *)
Definition initLayout (pageConfig : option PageConfig) : M unit :=
  path ← reads pathname;
  let basePath := getBasePath path in
  (if Str.includes "/admin/" path then
     loadComponent (basePath +:+ "/components/admin_sidebar.html") "sidebar-placeholder";;
     loadComponent (basePath +:+ "/components/admin_header.html") "header-placeholder"
   else if Str.includes "/app/" path then
     loadComponent (basePath +:+ "/components/app_sidebar.html") "sidebar-placeholder";;
     loadComponent (basePath +:+ "/components/app_header.html") "header-placeholder"
   else if Str.includes "/portal/" path then
     loadComponent (basePath +:+ "/components/portal_navbar.html") "navbar-placeholder";;
     loadComponent (basePath +:+ "/components/portal_footer.html") "footer-placeholder"
   else mret ());;
  setupDynamicContent pageConfig;;
  autoFixFormSectionLayout;;
  setupEventListeners.

(** [logout]. *)
Definition logout : M unit :=
  consoleWrite Log "[DEBUG-FRONTEND] A função logout() foi chamada." [];;
  authToken ← getItem "authToken";
  (if Str.truthy authToken then
     consoleWrite Log
       "[DEBUG-FRONTEND] Token encontrado. Enviando requisição para /api/auth/logout..." [];;
     tryCatch
       (response ← fetch {| method := "POST"; url := "/api/auth/logout";
                            headers := [("Authorization",
                                         "Bearer " +:+ default EmptyString authToken)] |};
        if negb (ok response) then
          consoleWrite Warn
            "A invalidação do token no servidor falhou, mas o logout no cliente prosseguirá." []
        else
          consoleWrite Log "[AUTH] Token invalidado no servidor com sucesso." [])
       (λ error,
          consoleWrite Err "Erro ao contatar o servidor para logout:" [ArgException error])
   else mret ());;
  removeItem "authToken";;
  removeItem "userData";;
  target ← reads loginUrl;
  setHref target.

End Network.

(** *** Logout while its request is pending *)

Section Pending.

Variable server : list Request → FetchOutcome.

(** What else runs on the page while a request is pending: the event loop
    goes on during an [await], and its other tasks read and write the
    page. *)
Variable during : Page → Page.

(** [await fetch(url, init)] on a page that is open to the other tasks
    until the answer comes. *)
Definition fetchPending (req : Request) : M Response := λ pg,
  let sent := withRequests (requests pg ++ [req]) pg in
  match server (requests sent) with
  | Rejected reason => (Throw (Rejection reason), during sent)
  | Responded r => (Normal r, during sent)
  end.

(** [logout], its one [await] a point where the other tasks run. *)
Definition logoutPending : M unit :=
  consoleWrite Log "[DEBUG-FRONTEND] A função logout() foi chamada." [];;
  authToken ← getItem "authToken";
  (if Str.truthy authToken then
     consoleWrite Log
       "[DEBUG-FRONTEND] Token encontrado. Enviando requisição para /api/auth/logout..." [];;
     tryCatch
       (response ← fetchPending {| method := "POST"; url := "/api/auth/logout";
                                   headers := [("Authorization",
                                                "Bearer " +:+ default EmptyString authToken)] |};
        if negb (ok response) then
          consoleWrite Warn
            "A invalidação do token no servidor falhou, mas o logout no cliente prosseguirá." []
        else
          consoleWrite Log "[AUTH] Token invalidado no servidor com sucesso." [])
       (λ error,
          consoleWrite Err "Erro ao contatar o servidor para logout:" [ArgException error])
   else mret ());;
  removeItem "authToken";;
  removeItem "userData";;
  target ← reads loginUrl;
  setHref target.

End Pending.

(** *** The listeners *)

(** The methods of [classList] that the listeners call. *)

Module ClassList.

(** [el.classList.contains(token)]. *)
Definition contains (token : string) (n : Node) : bool :=
  Dom.matches (Dom.byClass token) n.

(** [el.classList.remove(token)]: the token leaves the ordered set, and the
    attribute is written back from the set, unless there is no attribute
    and nothing to write. *)
Definition remove (token : string) (n : Node) : Node :=
  match n with
  | Element t a cs =>
      let set := filter (λ x, x ≠ token) (Dom.orderedSet [] (Dom.classList a)) in
      match Dom.attribute "class" a, set with
      | None, [] => n
      | _, _ => Element t (Dom.setAttribute "class" (Dom.joinTokens set) a) cs
      end
  | TextNode _ => n
  end.

(** [el.classList.toggle(token)]. *)
Definition toggle (token : string) (n : Node) : Node :=
  if contains token n then remove token n else Dom.classListAdd token n.

End ClassList.

(** The listener that [setupEventListeners] puts on [profileBtn], for a
    button and a dropdown that are in the document.  Its
    [event.stopPropagation()] keeps the click from the listener on
    [window]. *)
Definition onProfileClick (profileBtn profileDropdown : Path) : M unit :=
  updateElement profileDropdown (ClassList.toggle "active");;
  updateElement profileBtn (ClassList.toggle "active").

(** The listener that [setupEventListeners] puts on [window]; each of the
    two elements is in the document or is [null] (here [None]).  The
    button is read without a test: [null.classList] throws. *)
Definition onWindowClick (profileDropdown profileBtn : option Path) : M unit :=
  match profileDropdown with
  | None => mret ()
  | Some dropdown =>
      active ← @reads bool (λ pg, from_option (ClassList.contains "active") false
                                    (Dom.nodeAt dropdown (document pg)));
      if (active : bool) then
        updateElement dropdown (ClassList.remove "active");;
        match profileBtn with
        | Some btn => updateElement btn (ClassList.remove "active")
        | None => throw TypeError
        end
      else mret ()
  end.

(** The listener that [setupEventListeners] puts on a link: [getAttribute]
    gives [null] for a missing attribute, which [getPageUrl] reads as the
    key [null]. *)
Definition onNavLinkClick (link : Path) : M unit :=
  pageName ← reads (λ pg, n ← Dom.nodeAt link (document pg);
                          match n with
                          | Element _ a _ => Dom.attribute "data-page" a
                          | TextNode _ => None
                          end);
  navigateToPage (default "null" pageName).

Section Toast.

(** [showToast] is no function of this script: what it does to the page
    is not known here. *)
Variable showToast : string → string → M unit.

(** The listener of [DOMContentLoaded]. *)
Definition onDOMContentLoaded : M unit :=
  flag ← getItem "showLoginSuccessToast";
  if bool_decide (flag = Some "true") then
    showToast "Login bem-sucedido!" "success";;
    removeItem "showLoginSuccessToast"
  else mret ().

End Toast.

(** *** Status dropdowns *)

(** The listeners of [initStatusDropdowns] on the badges and on [window].
    (The listener on an item of a menu is left out: it calls
    [toUpperCase], which goes by the Unicode tables.) *)

(** The selector [.status-dropdown.open]. *)
Definition openDropdown : Dom.Selector :=
  λ t a, Dom.byClass "status-dropdown" t a && Dom.byClass "open" t a.

(** [closeAllDropdowns(exceptThisOne)] of [initStatusDropdowns]; [None]
    is [null]. *)
Definition closeAllDropdowns (exceptThisOne : option Path) : M unit :=
  dropdowns ← querySelectorAll openDropdown;
  forEach dropdowns
    (λ dropdown,
       if bool_decide (exceptThisOne = Some dropdown) then mret ()
       else updateElement dropdown (ClassList.remove "open")).

(** The click listener on the badge of [dropdown], one of the elements
    [.status-dropdown] of the document. *)
Definition onBadgeClick (dropdown : Path) : M unit :=
  wasOpen ← @reads bool (λ pg, from_option (ClassList.contains "open") false
                                 (Dom.nodeAt dropdown (document pg)));
  closeAllDropdowns None;;
  if (wasOpen : bool) then mret () else updateElement dropdown (Dom.classListAdd "open").

(** * The vocabulary of the specification *)

(** ** Runs *)

(** What a call does to the page: the completion and the page left. *)
Definition outcome {A} (m : M A) (pg : Page) : Completion A := (m pg).1.
Definition after {A} (m : M A) (pg : Page) : Page := (m pg).2.

(** ** Authentication guard *)

(** The guard rejects the load: the store is emptied, the browser is sent
    to the login page, and the call throws. *)
Definition rejected (pg : Page) : Prop :=
  localStorage (after protectPage pg) = ∅ ∧
  href (after protectPage pg) = Some (Own (getBasePath (pathname pg) +:+ "/app/login.html")) ∧
  ∃ e, outcome protectPage pg = Throw e.

(** The guard lets the load go on: no redirect is added, the store is as
    it was, and the call returns. *)
Definition accepted (pg : Page) : Prop :=
  outcome protectPage pg = Normal () ∧
  href (after protectPage pg) = href pg ∧
  localStorage (after protectPage pg) = localStorage pg.

(** A user record: an object with a textual [email] and [role]. *)
Definition userRecord (v : JSON) : Prop :=
  ∃ ms e r, v = JObject ms ∧
    Json.lastMember (Json.units "email") ms = Some (JString e) ∧
    Json.lastMember (Json.units "role") ms = Some (JString r).

(** The text is parseable as a user record. *)
Definition parsesToUserRecord (text : string) : Prop :=
  ∃ v, Json.parse text = Some v ∧ userRecord v.

(** The members that the guard logs can be read from the value, and each
    has a text. *)
Definition readable (v : JSON) : bool :=
  match v with
  | JNull => false
  | JObject ms =>
      negb (from_option Json.toStringThrows false (Json.lastMember (Json.units "email") ms)) &&
      negb (from_option Json.toStringThrows false (Json.lastMember (Json.units "role") ms))
  | _ => true
  end.

(** ** Layout auto-repair *)

(** The selector of [mainContent] and of the outer wrapper. *)
Definition isMainContent : Dom.Selector := Dom.byClass "main-content".
Definition isWrapper : Dom.Selector := Dom.byClass "page-content-wrapper".

(** A node has the section class [selector]. *)
Definition hasSection (selector : string) (n : Node) : bool :=
  Dom.matches (Dom.byClass selector) n.

(** A direct child that the repair moves: one with a section class. *)
Definition isContainer (n : Node) : bool :=
  existsb (λ selector, hasSection selector n) Repair.containerSelectors.

(** The last of the four section classes that a node has. *)
Definition sectionClass (n : Node) : option string :=
  last (filter (λ selector, hasSection selector n = true) Repair.containerSelectors).

(** The containers among [cs], class after class in the order of the four
    classes, those of one class in the order they have in [cs]. *)
Definition grouped (cs : list Node) : list Node :=
  flat_map (λ selector, filter (λ c, sectionClass c = Some selector) cs)
    Repair.containerSelectors.

(** The repair has nothing to do: no [mainContent], a wrapper below it
    already, or no container among its children. *)
Definition settled (d : Node) : Prop :=
  match Dom.first isMainContent d with
  | None => True
  | Some el =>
      ∃ m, Dom.nodeAt el d = Some m ∧
           (Dom.hasDescendant isWrapper m = true ∨
            Repair.containersToWrap (Dom.children m) = [])
  end.

(** ** Fragments, layout and logout *)

(** The request that [fetch(url)] makes. *)
Definition get (url : string) : Request :=
  {| method := "GET"; url := url; headers := [] |}.

(** The request of the logout notification. *)
Definition logoutRequest (token : string) : Request :=
  {| method := "POST"; url := "/api/auth/logout";
     headers := [("Authorization", "Bearer " +:+ token)] |}.

(** The exception that [loadComponent] catches, if the answer to its
    request is a failure: a rejected [fetch], a status that is not OK, or a
    body that cannot be read. *)
Definition loadFailure (componentPath : string) (o : FetchOutcome) : option Exception :=
  match o with
  | Rejected reason => Some (Rejection reason)
  | Responded r =>
      if ok r then
        match body r with
        | BodyText _ => None
        | BodyFailed reason => Some (Rejection reason)
        end
      else Some (Error ("Componente não encontrado: " +:+ componentPath))
  end.

(** The content of an element replaced by what the markup parses to. *)
Definition withMarkup (parseHTML : string → string → list Node) (markup : string)
    (n : Node) : Node :=
  match n with
  | Element t a _ => Element t a (parseHTML t markup)
  | TextNode _ => n
  end.



(** The steps of [initLayout] after the fragments. *)
Definition finishLayout (pageConfig : option PageConfig) : M unit :=
  setupDynamicContent pageConfig;;
  autoFixFormSectionLayout;;
  setupEventListeners.

(** What [logout] logs about the answer to its notification. *)
Definition notificationEntry (o : FetchOutcome) : LogEntry :=
  match o with
  | Rejected reason =>
      {| level := Err; message := "Erro ao contatar o servidor para logout:";
         args := [ArgException (Rejection reason)] |}
  | Responded r =>
      if ok r then
        {| level := Log; message := "[AUTH] Token invalidado no servidor com sucesso.";
           args := [] |}
      else
        {| level := Warn;
           message :=
             "A invalidação do token no servidor falhou, mas o logout no cliente prosseguirá.";
           args := [] |}
  end.

(** The last steps of [logout]: the two entries removed, the browser sent
    to the login page. *)
Definition signOut : M unit :=
  removeItem "authToken";;
  removeItem "userData";;
  target ← reads loginUrl;
  setHref target.

(** ** The two fragments of a context *)

(** The markup that a load puts in its placeholder: the text of the
    fragment, or the error markup where the request failed. *)
Definition delivered (componentPath : string) (o : FetchOutcome) : string :=
  match o with
  | Responded {| ok := true; body := BodyText text |} => text
  | _ => errorMarkup componentPath
  end.

(** The page after the load of a fragment into the placeholder [el]: the
    request is made, a failure is logged, and the content of the
    placeholder is what the markup delivered parses to. *)
Definition afterLoad (parseHTML : string → string → list Node) (componentPath : string)
    (el : Path) (o : FetchOutcome) (pg : Page) : Page :=
  let sent := withRequests (requests pg ++ [get componentPath]) pg in
  withDocument
    (Dom.updateAt el (withMarkup parseHTML (delivered componentPath o)) (document pg))
    match loadFailure componentPath o with
    | Some e =>
        withConsole
          (console pg ++
           [{| level := Err; message := "Erro ao carregar componente:";
               args := [ArgException e] |}])
          sent
    | None => sent
    end.



(** ** Logout *)

(** The page from which the notification goes out: [logout] has logged
    that it was called and that it found the token, and the request is
    made.  The store and the location are as they were. *)
Definition notifying (token : string) (pg : Page) : Page :=
  let called :=
    withConsole
      (console pg ++
       [{| level := Log; message := "[DEBUG-FRONTEND] A função logout() foi chamada.";
           args := [] |}])
      pg in
  let found :=
    withConsole
      (console called ++
       [{| level := Log;
           message :=
             "[DEBUG-FRONTEND] Token encontrado. Enviando requisição para /api/auth/logout...";
           args := [] |}])
      called in
  withRequests (requests found ++ [logoutRequest token]) found.

(** ** Pages for the examples *)

(** A page as it is when its script starts. *)
Definition freshPage (path : string) (doc : Node) (store : gmap string string) : Page :=
  {| pathname := path; document := doc; localStorage := store; href := None;
     currentUser := None; console := []; requests := []; listeners := [];
     timers := [] |}.

Definition emptyDocument : Node :=
  Element "html" [] [Element "head" [] []; Element "body" [] []].

Definition sampleUser : string :=
  Str.quoted "{'id': 7, 'email': 'ana@camara.gov.br', 'role': 'admin'}".

Definition sectionA : Node :=
  Element "div" [("class", "content-section")] [TextNode "A"].
Definition sectionB : Node :=
  Element "section" [("class", "form-section")] [TextNode "B"].
Definition sectionC : Node :=
  Element "div" [("class", "form-section")] [TextNode "C"].

(** A legacy page: the sections stand directly below the main content. *)
Definition legacyDocument (sections : list Node) : Node :=
  Element "html" []
    [ Element "head" [] [];
      Element "body" []
        [ Element "div" [("id", "sidebar-placeholder")] [];
          Element "main" [("class", "main-content")] sections ] ].

(** A parser for the examples: the markup becomes one text node. *)
Definition asText : string → string → list Node := λ _ markup, [TextNode markup].

(** A network that is down, and a server that has no fragment. *)
Definition offline : list Request → FetchOutcome := λ _, Rejected "Failed to fetch".
Definition notFound : list Request → FetchOutcome :=
  λ _, Responded {| ok := false; body := BodyText "Not Found" |}.

(** ** Computations that return and leave the session alone *)

(** The computation returns normally, and leaves the store, the location,
    [window.currentUser] and the pending navigations as they were. *)
Definition harmless {A} (m : M A) : Prop :=
  ∀ pg, (∃ a, outcome m pg = Normal a) ∧
        localStorage (after m pg) = localStorage pg ∧
        href (after m pg) = href pg ∧
        currentUser (after m pg) = currentUser pg ∧
        timers (after m pg) = timers pg ∧
        pathname (after m pg) = pathname pg.

(** ** Class tokens *)

(** A token: not empty, no white space in it. *)
Fixpoint spaceless (s : string) : bool :=
  match s with
  | EmptyString => true
  | String c r => negb (Dom.isSpace c) && spaceless r
  end.

Definition isToken (s : string) : Prop := s ≠ EmptyString ∧ spaceless s = true.

(** The element at [el] has the class [token]. *)
Definition hasClass (token : string) (el : Path) (pg : Page) : bool :=
  from_option (ClassList.contains token) false (Dom.nodeAt el (document pg)).

(** ** The guard's decision *)

(** What the guard goes by: a token that is not empty, and a stored
    [userData] that is absent, empty, or parses to a value whose members
    the guard can read and put in its log line. *)
Definition passes (pg : Page) : bool :=
  Str.truthy (localStorage pg !! "authToken") &&
  match localStorage pg !! "userData" with
  | Some (String _ _ as userData) => from_option readable false (Json.parse userData)
  | _ => true
  end.

(** A server that has the fragment: every request is answered with [text]. *)
Definition serving (text : string) : list Request → FetchOutcome :=
  λ _, Responded {| ok := true; body := BodyText text |}.

(** ** Updates of one element *)

Definition isElement (n : Node) : bool :=
  match n with Element _ _ _ => true | TextNode _ => false end.

(** An update of the element itself: it keeps the children, and an
    element stays one. *)
Definition shallow (f : Node → Node) : Prop :=
  ∀ n, Dom.children (f n) = Dom.children n ∧ isElement (f n) = isElement n.

(** ** Listeners *)

(** The links that have a click listener for navigation, one entry for
    each listener. *)
Definition navigations (l : list Listener) : list Path :=
  omap (λ x, match x with Navigate link => Some link | _ => None end) l.

(** The click listeners on [window]. *)
Definition windowListeners (l : list Listener) : list (Ref * Ref) :=
  omap (λ x, match x with CloseProfile d b => Some (d, b) | _ => None end) l.

(** The listeners after a call of [setupEventListeners]. *)
Definition registered (pg : Page) : list Listener :=
  let profileBtn := Dom.first (Dom.byId "profileBtn") (document pg) in
  let profileDropdown := Dom.first (Dom.byId "profileDropdown") (document pg) in
  let navLinks := Dom.all Dom.navLink (document pg) in
  omap (afterReplace navLinks)
    ((listeners pg ++
      match profileBtn, profileDropdown with
      | Some b, Some d => [ProfileToggle b (At d)]
      | _, _ => []
      end) ++
     [CloseProfile (ref profileDropdown) (ref profileBtn)]) ++
  (Navigate <$> navLinks) ++
  (FadeIn <$> Dom.all (Dom.byClass "fade-in") (document pg)).

(** ** A page with a profile menu *)

Definition profileDocument (button : list Node) (menuClass : string) : Node :=
  Element "html" []
    [ Element "body" []
        (button ++
         [ Element "div" [("id", "profileDropdown"); ("class", menuClass)]
             [ Element "a" [("data-page", "perfil")] [TextNode "Perfil"] ] ]) ].

Definition profileButton : Node :=
  Element "button" [("id", "profileBtn")] [TextNode "Ana"].

(** ** The steps of [setupDynamicContent] on the document *)

(** The element whose text is set: [headerTitle], where the configuration
    has a title. *)
Definition titleTarget (cfg : PageConfig) (doc : Node) : option Path :=
  if Str.truthy (title cfg) then Dom.first (Dom.byId "header-title") doc else None.

(** The document after the title, after the icon, and after the active
    item of the navigation. *)
Definition withTitle (cfg : PageConfig) (doc : Node) : Node :=
  match titleTarget cfg doc with
  | Some el => Dom.updateAt el (Dom.setTextContent (default EmptyString (title cfg))) doc
  | None => doc
  end.

Definition withIcon (cfg : PageConfig) (doc : Node) : Node :=
  match Dom.first (Dom.byId "header-icon") doc with
  | Some el =>
      if Str.truthy (icon cfg) && attached (titleTarget cfg doc) el
      then Dom.updateAt el
             (Dom.setClassName ("fa-solid " +:+ default EmptyString (icon cfg)))
             (withTitle cfg doc)
      else withTitle cfg doc
  | None => withTitle cfg doc
  end.

Definition withNavActive (cfg : PageConfig) (doc : Node) : Node :=
  if Str.truthy (navActive cfg) then
    match Dom.first (Dom.byId (default EmptyString (navActive cfg))) (withIcon cfg doc) with
    | Some el => Dom.updateAt el (Dom.classListAdd "active") (withIcon cfg doc)
    | None => withIcon cfg doc
    end
  else withIcon cfg doc.

(** ** A page with a header *)

(** The icon stands inside the title, as in the header fragments. *)
Definition headerDocument : Node :=
  Element "html" []
    [ Element "body" []
        [ Element "h1" [("id", "header-title")]
            [ Element "i" [("id", "header-icon"); ("class", "fa-solid")] [];
              TextNode "Painel" ];
          Element "a" [("id", "nav-vereadores"); ("class", "nav-item");
                       ("data-page", "vereadores")]
            [ TextNode "Vereadores" ] ] ].

Definition vereadoresConfig : PageConfig :=
  {| title := Some "Vereadores"; icon := Some "fa-users";
     navActive := Some "nav-vereadores" |}.

(** ** Selectors on a place of the document *)

(** The element at [p] matches the selector. *)
Definition matching (q : Dom.Selector) (doc : Node) (p : Path) : bool :=
  from_option (Dom.matches q) false (Dom.nodeAt p doc).

(** One step of [closeAllDropdowns] on the document. *)
Definition closeUnless (exceptThisOne : option Path) (doc : Node) (dropdown : Path) : Node :=
  if bool_decide (exceptThisOne = Some dropdown) then doc
  else Dom.updateAt dropdown (ClassList.remove "open") doc.

(** A table with two status dropdowns, the first of them open. *)
Definition statusDocument : Node :=
  Element "html" []
    [ Element "body" []
        [ Element "div" [("class", "status-dropdown open")]
            [ Element "div" [("class", "status-badge-wrapper")] [] ];
          Element "div" [("class", "status-dropdown")]
            [ Element "div" [("class", "status-badge-wrapper")] [] ] ] ].

(** ** A portal page *)



(** A task that runs while a request is pending and notes in the console
    the token it finds in the store. *)
Definition noteToken : Page → Page :=
  λ pg, withConsole
          (console pg ++
           [{| level := Log; message := "token";
               args := [ArgTexts [default "none" (localStorage pg !! "authToken")]] |}])
          pg.

(** * Properties *)

(** ** Page names and URLs *)

Lemma getPageUrl_dashboard_admin (path : string) :
  Str.includes "/admin/" path = true →
  getPageUrl path "dashboard" = Own (getBasePath path +:+ "/admin/dashboard_admin.html").
Proof.
  intros Hadmin. unfold getPageUrl, isAdminContext. rewrite Hadmin.
  generalize (getBasePath path). intros b. reflexivity.
Qed.

Lemma getPageUrl_dashboard_app (path : string) :
  Str.includes "/admin/" path = false →
  getPageUrl path "dashboard" = Own (getBasePath path +:+ "/app/dashboard.html").
Proof.
  intros Hadmin. unfold getPageUrl, isAdminContext. rewrite Hadmin.
  generalize (getBasePath path). intros b. reflexivity.
Qed.

(** A name that is neither a key of the table nor a property of
    [Object.prototype] has no URL. *)
Lemma getPageUrl_unknown (path name : string) :
  pageMap (getBasePath path) !! name = None →
  name ∉ objectPrototypeKeys →
  getPageUrl path name = Undefined.
Proof.
  intros Hmap Hproto. unfold getPageUrl.
  destruct (String.eqb_spec name "dashboard") as [-> | Hne].
  - revert Hmap. generalize (getBasePath path). intros b. vm_compute. discriminate.
  - rewrite andb_false_r. unfold getProperty. rewrite Hmap.
    rewrite bool_decide_eq_false_2; done.
Qed.

Example getPageUrl_unknown_key :
  getPageUrl "/telas2/app/dashboard.html" "unknown-key" = Undefined.
Proof. reflexivity. Qed.

(** A name that [Object.prototype] defines is found there: the read gives
    the inherited member, not [undefined]. *)
Lemma getPageUrl_inherited (path name : string) :
  name ∈ objectPrototypeKeys → getPageUrl path name = Inherited name.
Proof.
  intros Hname. unfold getPageUrl. generalize (getBasePath path). intros b.
  unfold objectPrototypeKeys in Hname.
  repeat (apply elem_of_cons in Hname as [-> | Hname];
          [rewrite andb_false_r; by vm_compute |]).
  by apply elem_of_nil in Hname.
Qed.

(** C3. [getPageUrl] is meant to give no URL for a name outside the table,
    so that [navigateToPage] warns and stays.  The name [constructor] is
    not a key of the table, and yet the read [pageMap[key]] finds the member
    of that name on [Object.prototype]: the value returned is truthy. *)
Theorem getPageUrl_constructor (path : string) :
  pageMap (getBasePath path) !! "constructor" = None ∧
  getPageUrl path "constructor" = Inherited "constructor" ∧
  truthyValue (getPageUrl path "constructor") = true.
Proof.
  split; [generalize (getBasePath path); intros b; by vm_compute |].
  by rewrite getPageUrl_inherited by (by left).
Qed.

(** ** [JSON.parse] terminates *)

Section Termination.

Local Open Scope nat_scope.

Lemma andThen_Ok {A B} (p : Json.Parsed A) (k : A → string → Json.Parsed B)
    (b : B) (r : string) :
  Json.andThen p k = Json.Ok b r → ∃ a r0, p = Json.Ok a r0 ∧ k a r0 = Json.Ok b r.
Proof. destruct p as [a r0 | |]; [eauto | done ..]. Qed.

Lemma andThen_OutOfFuel {A B} (p : Json.Parsed A) (k : A → string → Json.Parsed B) :
  Json.andThen p k = Json.OutOfFuel →
  p = Json.OutOfFuel ∨ ∃ a r0, p = Json.Ok a r0 ∧ k a r0 = Json.OutOfFuel.
Proof. destruct p as [a r0 | |]; [eauto | done | eauto]. Qed.

Lemma skipWs_length (s : string) : String.length (Json.skipWs s) ≤ String.length s.
Proof.
  induction s as [| c s IH]; cbn; [done |]. destruct (Json.isWs c); cbn; lia.
Qed.

Lemma skipWs_cons (s r : string) (c : ascii) :
  Json.skipWs s = String c r → String.length r < String.length s.
Proof. intros H. pose proof (skipWs_length s) as Hle. rewrite H in Hle. cbn in Hle. lia. Qed.

Lemma digits_length (s ds r : string) :
  Json.digits s = (ds, r) → String.length r ≤ String.length s.
Proof.
  revert ds r. induction s as [| c s IH]; intros ds r H; cbn in H.
  - injection H as <- <-. done.
  - destruct (Json.isDigit c); [| injection H as <- <-; done].
    destruct (Json.digits s) as [ds' r'] eqn:Hd. injection H as <- <-.
    specialize (IH _ _ eq_refl). cbn. lia.
Qed.

Lemma stringBody_length_le (n : nat) (s : string) (us : list N) (r : string) :
  String.length s ≤ n →
  Json.stringBody s = Json.Ok us r → String.length r < String.length s.
Proof.
  revert s us r. induction n as [| n IH]; intros s us r Hn H.
  { destruct s; [done | cbn in Hn; lia]. }
  destruct s as [| c s]; [done |]. cbn in H, Hn.
  destruct (Ascii.eqb c Str.dquote); [injection H as <- <-; cbn; lia |].
  destruct (Ascii.eqb c "\"%char).
  - destruct s as [| e s]; [done |]. cbn in Hn.
    destruct (Json.escapeUnit e).
    + apply andThen_Ok in H as (us' & r0 & Hbody & [= <- <-]).
      apply IH in Hbody; [cbn; lia | lia].
    + destruct (Ascii.eqb e "u"%char); [| done].
      destruct s as [| h1 [| h2 [| h3 [| h4 s]]]]; try done. cbn in Hn.
      destruct (Json.hexUnit h1 h2 h3 h4); [| done].
      apply andThen_Ok in H as (us' & r0 & Hbody & [= <- <-]).
      apply IH in Hbody; [cbn; lia | lia].
  - destruct (N_of_ascii c <? 32)%N; [done |].
    apply andThen_Ok in H as (us' & r0 & Hbody & [= <- <-]).
    apply IH in Hbody; [cbn; lia | lia].
Qed.

Lemma stringBody_length (s : string) (us : list N) (r : string) :
  Json.stringBody s = Json.Ok us r → String.length r < String.length s.
Proof. by apply (stringBody_length_le (String.length s)). Qed.

Lemma strip_length (word s r : string) :
  Json.strip word s = Some r → String.length r + String.length word = String.length s.
Proof.
  revert s. induction word as [| a word IH]; intros s H; cbn in H.
  - injection H as <-. cbn. lia.
  - destruct s as [| b s]; [done |]. destruct (Ascii.eqb a b); [| done].
    apply IH in H. cbn. lia.
Qed.

Lemma number_length (s n r : string) :
  Json.number s = Json.Ok n r → String.length r < String.length s.
Proof.
  unfold Json.number. intros H.
  assert (String.length (Json.minus s).2 ≤ String.length s) as Hminus.
  { destruct s as [| c s]; cbn; [done |]. destruct (Ascii.eqb c "-"%char); cbn; lia. }
  destruct (Json.minus s) as [sg s1]. cbn [snd] in Hminus.
  apply andThen_Ok in H as (i & s2 & Hint & H).
  apply andThen_Ok in H as (f & s3 & Hfrac & H).
  apply andThen_Ok in H as (e & s4 & Hexp & [= <- <-]).
  assert (String.length s2 < String.length s1) as H1.
  { destruct s1 as [| c s1]; [done |]. cbn in Hint.
    destruct (Ascii.eqb c "0"%char); [injection Hint as <- <-; cbn; lia |].
    destruct (Json.isDigit c); [| done].
    destruct (Json.digits s1) as [ds rest] eqn:Hd. injection Hint as <- <-.
    apply digits_length in Hd. cbn. lia. }
  assert (String.length s3 ≤ String.length s2) as H2.
  { destruct s2 as [| c s2]; cbn in Hfrac; [by injection Hfrac as <- <- |].
    destruct (Ascii.eqb c "."%char); [| by injection Hfrac as <- <-].
    destruct (Json.digits s2) as [[| d ds] rest] eqn:Hd; [done |].
    injection Hfrac as <- <-. apply digits_length in Hd. cbn. lia. }
  assert (String.length s4 ≤ String.length s3) as H3.
  { destruct s3 as [| c s3]; cbn in Hexp; [by injection Hexp as <- <- |].
    destruct (Ascii.eqb c "e"%char || Ascii.eqb c "E"%char);
      [| by injection Hexp as <- <-].
    assert (String.length (Json.sign s3).2 ≤ String.length s3) as Hsign.
    { destruct s3 as [| c' s3]; cbn; [done |].
      destruct (Ascii.eqb c' "+"%char || Ascii.eqb c' "-"%char); cbn; lia. }
    destruct (Json.sign s3) as [sg' r1]. cbn [snd] in Hsign.
    destruct (Json.digits r1) as [[| d ds] rest] eqn:Hd; [done |].
    injection Hexp as <- <-. apply digits_length in Hd. cbn. lia. }
  lia.
Qed.

Lemma next_length (close : ascii) (s r : string) :
  Json.next close s = Json.Comma r ∨ Json.next close s = Json.Close r →
  String.length r < String.length s.
Proof.
  unfold Json.next. destruct (Json.skipWs s) as [| c r'] eqn:Hs; [by intros [|] |].
  apply skipWs_cons in Hs.
  destruct (Ascii.eqb c ","%char); [intros [[= <-] | [=]]; done |].
  destruct (Ascii.eqb c close); intros [[=] | [= <-]]; done.
Qed.

Lemma literal_length (word : string) (v v' : JSON) (s r : string) :
  word ≠ EmptyString → Json.literal word v s = Json.Ok v' r →
  String.length r < String.length s.
Proof.
  unfold Json.literal. intros Hw H. destruct (Json.strip word s) as [rest |] eqn:Hs; [| done].
  injection H as <- <-. apply strip_length in Hs. destruct word; [done |]. cbn in Hs. lia.
Qed.

(** A value, a list of elements or a list of members that is read takes
    at least one character. *)
Lemma value_length (fuel : nat) :
  (∀ s v r, Json.value fuel s = Json.Ok v r → String.length r < String.length s) ∧
  (∀ s vs r, Json.elements fuel s = Json.Ok vs r → String.length r < String.length s) ∧
  (∀ s ms r, Json.members fuel s = Json.Ok ms r → String.length r < String.length s).
Proof.
  induction fuel as [| fuel (IHv & IHe & IHm)]; [done |].
  split; [| split].
  - intros s v r H. cbn [Json.value] in H.
    destruct (Json.skipWs s) as [| c r0] eqn:Hs; [done |].
    pose proof (skipWs_length s) as Hle. rewrite Hs in Hle.
    apply skipWs_cons in Hs.
    destruct (Ascii.eqb c Str.dquote).
    { apply andThen_Ok in H as (us & r1 & Hbody & [= <- <-]).
      apply stringBody_length in Hbody. lia. }
    destruct (Ascii.eqb c "{"%char).
    { destruct (Json.next "}"%char r0) as [r1 | r1 |] eqn:Hnext.
      - apply andThen_Ok in H as (ms & r2 & Hm & [= <- <-]). apply IHm in Hm. lia.
      - injection H as <- <-. pose proof (next_length _ _ _ (or_intror Hnext)). lia.
      - apply andThen_Ok in H as (ms & r2 & Hm & [= <- <-]). apply IHm in Hm. lia. }
    destruct (Ascii.eqb c "["%char).
    { destruct (Json.next "]"%char r0) as [r1 | r1 |] eqn:Hnext.
      - apply andThen_Ok in H as (vs & r2 & He & [= <- <-]). apply IHe in He. lia.
      - injection H as <- <-. pose proof (next_length _ _ _ (or_intror Hnext)). lia.
      - apply andThen_Ok in H as (vs & r2 & He & [= <- <-]). apply IHe in He. lia. }
    destruct (Ascii.eqb c "t"%char); [apply literal_length in H; [cbn in *; lia | done] |].
    destruct (Ascii.eqb c "f"%char); [apply literal_length in H; [cbn in *; lia | done] |].
    destruct (Ascii.eqb c "n"%char); [apply literal_length in H; [cbn in *; lia | done] |].
    apply andThen_Ok in H as (n & r1 & Hnum & [= <- <-]).
    apply number_length in Hnum. cbn in *. lia.
  - intros s vs r H. cbn [Json.elements] in H.
    apply andThen_Ok in H as (v & r0 & Hv & H). apply IHv in Hv.
    destruct (Json.next "]"%char r0) as [r1 | r1 |] eqn:Hnext; [| | done].
    + pose proof (next_length _ _ _ (or_introl Hnext)).
      apply andThen_Ok in H as (vs' & r2 & He & [= <- <-]). apply IHe in He. lia.
    + injection H as <- <-. pose proof (next_length _ _ _ (or_intror Hnext)). lia.
  - intros s ms r H. cbn [Json.members] in H.
    destruct (Json.skipWs s) as [| c r0] eqn:Hs; [done |]. apply skipWs_cons in Hs.
    destruct (Ascii.eqb c Str.dquote); [| done].
    apply andThen_Ok in H as (k & r1 & Hbody & H). apply stringBody_length in Hbody.
    destruct (Json.skipWs r1) as [| c1 r2] eqn:Hs1; [done |]. apply skipWs_cons in Hs1.
    destruct (Ascii.eqb c1 ":"%char); [| done].
    apply andThen_Ok in H as (v & r3 & Hv & H). apply IHv in Hv.
    destruct (Json.next "}"%char r3) as [r4 | r4 |] eqn:Hnext; [| | done].
    + pose proof (next_length _ _ _ (or_introl Hnext)).
      apply andThen_Ok in H as (ms' & r5 & Hm & [= <- <-]). apply IHm in Hm. lia.
    + injection H as <- <-. pose proof (next_length _ _ _ (or_intror Hnext)). lia.
Qed.

Lemma stringBody_fuel (s : string) : Json.stringBody s ≠ Json.OutOfFuel.
Proof.
  remember (String.length s) as n eqn:Hn. assert (String.length s ≤ n) as Hle by lia.
  clear Hn. revert s Hle. induction n as [| n IH]; intros s Hn H.
  { destruct s; [done | cbn in Hn; lia]. }
  destruct s as [| c s]; [done |]. cbn in H, Hn.
  destruct (Ascii.eqb c Str.dquote); [done |].
  destruct (Ascii.eqb c "\"%char).
  - destruct s as [| e s]; [done |]. cbn in Hn.
    destruct (Json.escapeUnit e).
    + apply andThen_OutOfFuel in H as [H | (us & r0 & _ & [=])].
      apply (IH s); [lia | done].
    + destruct (Ascii.eqb e "u"%char); [| done].
      destruct s as [| h1 [| h2 [| h3 [| h4 s]]]]; try done. cbn in Hn.
      destruct (Json.hexUnit h1 h2 h3 h4); [| done].
      apply andThen_OutOfFuel in H as [H | (us & r0 & _ & [=])].
      apply (IH s); [lia | done].
  - destruct (N_of_ascii c <? 32)%N; [done |].
    apply andThen_OutOfFuel in H as [H | (us & r0 & _ & [=])].
    apply (IH s); [lia | done].
Qed.

Lemma number_fuel (s : string) : Json.number s ≠ Json.OutOfFuel.
Proof.
  unfold Json.number. destruct (Json.minus s) as [sg s1]. intros H.
  apply andThen_OutOfFuel in H as [H | (i & s2 & _ & H)].
  { destruct s1 as [| c s1]; [done |]. cbn in H.
    destruct (Ascii.eqb c "0"%char); [done |].
    destruct (Json.isDigit c); [| done]. by destruct (Json.digits s1). }
  apply andThen_OutOfFuel in H as [H | (f & s3 & _ & H)].
  { destruct s2 as [| c s2]; [done |]. cbn in H.
    destruct (Ascii.eqb c "."%char); [| done].
    by destruct (Json.digits s2) as [[| d ds] rest]. }
  apply andThen_OutOfFuel in H as [H | (e & s4 & _ & [=])].
  destruct s3 as [| c s3]; [done |]. cbn in H.
  destruct (Ascii.eqb c "e"%char || Ascii.eqb c "E"%char); [| done].
  destruct (Json.sign s3) as [sg' r1].
  by destruct (Json.digits r1) as [[| d ds] rest].
Qed.

Lemma literal_fuel (word : string) (v : JSON) (s : string) :
  Json.literal word v s ≠ Json.OutOfFuel.
Proof. unfold Json.literal. by destruct (Json.strip word s). Qed.

(** With fuel beyond twice the length of the text no parser runs out. *)
Lemma value_fuel_enough (fuel : nat) :
  (∀ s, 2 * String.length s < fuel → Json.value fuel s ≠ Json.OutOfFuel) ∧
  (∀ s, 2 * String.length s + 1 < fuel → Json.elements fuel s ≠ Json.OutOfFuel) ∧
  (∀ s, 2 * String.length s + 1 < fuel → Json.members fuel s ≠ Json.OutOfFuel).
Proof.
  induction fuel as [| fuel (IHv & IHe & IHm)]; [repeat split; intros s Hs; lia |].
  destruct (value_length fuel) as (Lv & Le & Lm).
  split; [| split].
  - intros s Hfuel H. cbn [Json.value] in H.
    destruct (Json.skipWs s) as [| c r0] eqn:Hs; [done |].
    pose proof (skipWs_length s) as Hle. rewrite Hs in Hle. apply skipWs_cons in Hs.
    destruct (Ascii.eqb c Str.dquote).
    { apply andThen_OutOfFuel in H as [H | (us & r1 & _ & [=])].
      by apply stringBody_fuel in H. }
    destruct (Ascii.eqb c "{"%char).
    { destruct (Json.next "}"%char r0) as [r1 | r1 |]; [| done |];
        (apply andThen_OutOfFuel in H as [H | (ms & r2 & _ & [=])];
         apply IHm in H; [done | lia]). }
    destruct (Ascii.eqb c "["%char).
    { destruct (Json.next "]"%char r0) as [r1 | r1 |]; [| done |];
        (apply andThen_OutOfFuel in H as [H | (vs & r2 & _ & [=])];
         apply IHe in H; [done | lia]). }
    destruct (Ascii.eqb c "t"%char); [by apply literal_fuel in H |].
    destruct (Ascii.eqb c "f"%char); [by apply literal_fuel in H |].
    destruct (Ascii.eqb c "n"%char); [by apply literal_fuel in H |].
    apply andThen_OutOfFuel in H as [H | (n & r1 & _ & [=])].
    by apply number_fuel in H.
  - intros s Hfuel H. cbn [Json.elements] in H.
    apply andThen_OutOfFuel in H as [H | (v & r0 & Hv & H)].
    { apply IHv in H; [done | lia]. }
    apply Lv in Hv.
    destruct (Json.next "]"%char r0) as [r1 | r1 |] eqn:Hnext; [| done ..].
    pose proof (next_length _ _ _ (or_introl Hnext)).
    apply andThen_OutOfFuel in H as [H | (vs & r2 & _ & [=])].
    apply IHe in H; [done | lia].
  - intros s Hfuel H. cbn [Json.members] in H.
    destruct (Json.skipWs s) as [| c r0] eqn:Hs; [done |]. apply skipWs_cons in Hs.
    destruct (Ascii.eqb c Str.dquote); [| done].
    apply andThen_OutOfFuel in H as [H | (k & r1 & Hbody & H)].
    { by apply stringBody_fuel in H. }
    apply stringBody_length in Hbody.
    destruct (Json.skipWs r1) as [| c1 r2] eqn:Hs1; [done |]. apply skipWs_cons in Hs1.
    destruct (Ascii.eqb c1 ":"%char); [| done].
    apply andThen_OutOfFuel in H as [H | (v & r3 & Hv & H)].
    { apply IHv in H; [done | lia]. }
    apply Lv in Hv.
    destruct (Json.next "}"%char r3) as [r4 | r4 |] eqn:Hnext; [| done ..].
    pose proof (next_length _ _ _ (or_introl Hnext)).
    apply andThen_OutOfFuel in H as [H | (ms & r5 & _ & [=])].
    apply IHm in H; [done | lia].
Qed.

(** [JSON.parse] never runs out of fuel: it gives a value or a syntax
    error. *)
Theorem value_fuel (s : string) : Json.value (Json.fuelFor s) s ≠ Json.OutOfFuel.
Proof.
  destruct (value_fuel_enough (Json.fuelFor s)) as (Hv & _).
  apply Hv. unfold Json.fuelFor. lia.
Qed.

Corollary parse_None (s : string) :
  Json.parse s = None ↔ Json.document s = Json.SyntaxError.
Proof.
  unfold Json.parse, Json.document. pose proof (value_fuel s) as Hfuel.
  destruct (Json.value (Json.fuelFor s) s) as [v rest | |]; cbn; [| done ..].
  by destruct (Json.skipWs rest).
Qed.

End Termination.

(** ** Running a computation *)

(** The definitions that a run of the script unfolds; the operations of the
    store, of the document and of the parser stay folded. *)
Ltac run :=
  cbv beta iota zeta delta
    [ mbind M_bind mret M_ret throw tryCatch reads modify forEach
      consoleWrite getItem removeItem clearStorage setHref setTimeout
      querySelector querySelectorAll getElementById updateElement addListener
      jsonParse getMember interpolate currentUserMember loginUrl
      withDocument withLocalStorage withHref withCurrentUser withConsole
      withRequests withListeners withTimers
      pathname document localStorage href currentUser console requests listeners timers
      fst snd negb ].

(** ** Authentication guard *)

Lemma protectPage_no_token (pg : Page) :
  Str.truthy (localStorage pg !! "authToken") = false → rejected pg.
Proof.
  intros Htoken. unfold rejected, outcome, after, protectPage.
  destruct pg as [path d ls h u c r l t]. run. cbn in Htoken. rewrite Htoken.
  run. eauto.
Qed.

Lemma userRecord_readable (v : JSON) : userRecord v → readable v = true.
Proof. intros (ms & e & r & -> & He & Hr). unfold readable. by rewrite He, Hr. Qed.

Lemma truthy_Some (s : string) : s ≠ EmptyString → Str.truthy (Some s) = true.
Proof. by destruct s. Qed.

Lemma parse_nonempty (text : string) (v : JSON) :
  Json.parse text = Some v → text ≠ EmptyString.
Proof. by intros H ->. Qed.

(** With a token and a stored text that parses to a readable value, the
    guard returns and [window.currentUser] is the value. *)
Lemma protectPage_readable (pg : Page) (tok ud : string) (v : JSON) :
  localStorage pg !! "authToken" = Some tok → tok ≠ EmptyString →
  localStorage pg !! "userData" = Some ud → Json.parse ud = Some v →
  readable v = true →
  accepted pg ∧ currentUser (after protectPage pg) = Some v.
Proof.
  intros Htok Hne Hud Hparse Hread.
  pose proof (truthy_Some _ Hne) as Ht.
  pose proof (truthy_Some _ (parse_nonempty _ _ Hparse)) as Hu.
  unfold accepted, outcome, after, protectPage.
  destruct pg as [path d ls h u c r l t]. cbn in Htok, Hud. run.
  rewrite Htok, Ht. run. rewrite Hud, Hu. cbn [default from_option id]. rewrite Hparse. run.
  destruct v as [| b | n | s | vs | ms]; try discriminate Hread; try done.
  unfold readable in Hread. apply andb_true_iff in Hread as [He Hr].
  apply negb_true_iff in He, Hr.
  destruct (Json.lastMember (Json.units "email") ms) as [e |] eqn:Eemail;
    destruct (Json.lastMember (Json.units "role") ms) as [r' |] eqn:Erole;
    cbn [from_option] in He, Hr;
    repeat progress (run; rewrite ?Eemail, ?Erole, ?He, ?Hr); done.
Qed.

(** With a token and a stored text that [JSON.parse] rejects, or that
    parses to a value the guard cannot read, the guard rejects the load. *)
Lemma protectPage_unreadable (pg : Page) (tok ud : string) :
  localStorage pg !! "authToken" = Some tok → tok ≠ EmptyString →
  localStorage pg !! "userData" = Some ud → ud ≠ EmptyString →
  from_option readable false (Json.parse ud) = false →
  rejected pg.
Proof.
  intros Htok Hne Hud Hne' Hread.
  pose proof (truthy_Some _ Hne) as Ht. pose proof (truthy_Some _ Hne') as Hu.
  unfold rejected, outcome, after, protectPage.
  destruct pg as [path d ls h u c r l t]. cbn in Htok, Hud. run.
  rewrite Htok, Ht. run. rewrite Hud, Hu. cbn [default from_option id].
  destruct (Json.parse ud) as [v |]; run; [| eauto].
  destruct v as [| b | n | s | vs | ms]; try discriminate Hread; eauto.
  unfold from_option, readable in Hread.
  destruct (Json.lastMember (Json.units "email") ms) as [e |] eqn:Eemail;
    destruct (Json.lastMember (Json.units "role") ms) as [r' |] eqn:Erole;
    cbn [from_option] in Hread; try discriminate Hread;
    try (destruct (Json.toStringThrows e) eqn:He);
    try (destruct (Json.toStringThrows r') eqn:Hr);
    try discriminate Hread;
    repeat progress (run; rewrite ?Eemail, ?Erole, ?He, ?Hr); eauto.
Qed.

(** With a token and no text to parse, the guard returns and leaves
    [window.currentUser] as it was. *)
Lemma protectPage_nothing_stored (pg : Page) (tok : string) :
  localStorage pg !! "authToken" = Some tok → tok ≠ EmptyString →
  Str.truthy (localStorage pg !! "userData") = false →
  accepted pg ∧ currentUser (after protectPage pg) = currentUser pg.
Proof.
  intros Htok Hne Hud. pose proof (truthy_Some _ Hne) as Ht.
  unfold accepted, outcome, after, protectPage.
  destruct pg as [path d ls h u c r l t]. cbn in Htok, Hud. run.
  rewrite Htok, Ht. run. rewrite Hud. done.
Qed.

(** C1, as the code has it.  With no [authToken] in the store, and with an
    [authToken] and a stored [userData] that is a non-empty text which
    [JSON.parse] rejects or reads as [null], [protectPage] empties the
    store, sends the browser to the login page and throws. *)
Theorem protectPage_rejects (pg : Page) :
  localStorage pg !! "authToken" = None ∨
  (∃ ud, is_Some (localStorage pg !! "authToken") ∧
         localStorage pg !! "userData" = Some ud ∧
         ud ≠ EmptyString ∧
         (Json.parse ud = None ∨ Json.parse ud = Some JNull)) →
  rejected pg.
Proof.
  intros [Hnone | (ud & [tok Htok] & Hud & Hne & Hparse)].
  - apply protectPage_no_token. by rewrite Hnone.
  - destruct tok as [| c tok'] eqn:Etok.
    + apply protectPage_no_token. by rewrite Htok.
    + eapply protectPage_unreadable; eauto. by destruct Hparse as [-> | ->].
Qed.

Lemma protectPage_rejects_witness :
  rejected (freshPage "/telas2/app/dashboard.html" emptyDocument
              {[ "authToken" := "t0k3n"; "userData" := "{email:" ]}).
Proof.
  apply protectPage_rejects. right. exists "{email:".
  split; [by exists "t0k3n" |]. split; [reflexivity |]. split; [discriminate |].
  left. vm_compute. reflexivity.
Defined.

(** C1 does not hold as stated: an empty [userData] text is stored, is not
    parseable as a user record, and the guard lets the load go on with the
    store as it was. *)
Lemma protectPage_empty_userData :
  let pg := freshPage "/telas2/app/dashboard.html" emptyDocument
              {[ "authToken" := "t0k3n"; "userData" := EmptyString ]} in
  localStorage pg !! "authToken" = Some "t0k3n" ∧
  localStorage pg !! "userData" = Some EmptyString ∧
  ¬ parsesToUserRecord EmptyString ∧
  accepted pg ∧ ¬ rejected pg.
Proof.
  cbn zeta. split; [reflexivity |]. split; [reflexivity |].
  split; [by intros (v & Hv & _) |].
  split; [by vm_compute |].
  intros (_ & _ & e & He). vm_compute in He. discriminate.
Qed.

(** Nor is a text that parses to something other than a user record
    rejected: the guard leaves the number in [window.currentUser]. *)
Example protectPage_number_userData :
  let pg := freshPage "/telas2/app/dashboard.html" emptyDocument
              {[ "authToken" := "t0k3n"; "userData" := "42" ]} in
  ¬ parsesToUserRecord "42" ∧
  accepted pg ∧ currentUser (after protectPage pg) = Some (JNumber "42").
Proof.
  cbn zeta. split; [| by vm_compute].
  intros (v & Hv & ms & e & r & -> & _). vm_compute in Hv. discriminate.
Qed.

(** C2. With a session token (an [authToken] that is not empty: the guard
    tests [!token]) and a stored text that parses to a user record,
    [protectPage] returns, assigns no location, and leaves the parsed
    record in [window.currentUser]. *)
Theorem protectPage_accepts (pg : Page) (tok ud : string) (v : JSON) :
  localStorage pg !! "authToken" = Some tok → tok ≠ EmptyString →
  localStorage pg !! "userData" = Some ud →
  Json.parse ud = Some v → userRecord v →
  outcome protectPage pg = Normal () ∧
  href (after protectPage pg) = href pg ∧
  currentUser (after protectPage pg) = Some v.
Proof.
  intros Htok Hne Hud Hparse Hrec.
  destruct (protectPage_readable pg tok ud v) as [(Hout & Hhref & _) Huser];
    auto using userRecord_readable.
Qed.

Lemma protectPage_accepts_witness :
  let pg := freshPage "/telas2/app/dashboard.html" emptyDocument
              {[ "authToken" := "t0k3n"; "userData" := sampleUser ]} in
  outcome protectPage pg = Normal () ∧
  href (after protectPage pg) = None ∧
  currentUser (after protectPage pg) = Json.parse sampleUser.
Proof.
  cbn zeta.
  refine (protectPage_accepts _ "t0k3n" sampleUser
            (JObject [ (Json.units "id", JNumber "7");
                       (Json.units "email", JString (Json.units "ana@camara.gov.br"));
                       (Json.units "role", JString (Json.units "admin")) ])
            _ _ _ _ _).
  - reflexivity.
  - discriminate.
  - reflexivity.
  - vm_compute. reflexivity.
  - exists [ (Json.units "id", JNumber "7");
             (Json.units "email", JString (Json.units "ana@camara.gov.br"));
             (Json.units "role", JString (Json.units "admin")) ],
      (Json.units "ana@camara.gov.br"), (Json.units "admin").
    repeat split; vm_compute; reflexivity.
Defined.

(** C10. With a session token (an [authToken] that is not empty) and no
    [userData] entry in the store, [protectPage] returns, assigns no
    location, leaves the store as it was and does not assign
    [window.currentUser]. *)
Theorem protectPage_without_userData (pg : Page) (tok : string) :
  localStorage pg !! "authToken" = Some tok → tok ≠ EmptyString →
  localStorage pg !! "userData" = None →
  outcome protectPage pg = Normal () ∧
  href (after protectPage pg) = href pg ∧
  localStorage (after protectPage pg) = localStorage pg ∧
  currentUser (after protectPage pg) = currentUser pg.
Proof.
  intros Htok Hne Hud.
  destruct (protectPage_nothing_stored pg tok) as [(Hout & Hhref & Hstore) Huser]; auto.
  by rewrite Hud.
Qed.

Lemma protectPage_without_userData_witness :
  let pg := freshPage "/telas2/app/dashboard.html" emptyDocument
              {[ "authToken" := "t0k3n" ]} in
  outcome protectPage pg = Normal () ∧
  href (after protectPage pg) = None ∧
  localStorage (after protectPage pg) = {[ "authToken" := "t0k3n" ]} ∧
  currentUser (after protectPage pg) = None.
Proof.
  cbn zeta.
  refine (protectPage_without_userData _ "t0k3n" _ _ _).
  - reflexivity.
  - discriminate.
  - reflexivity.
Defined.

(** ** Navigation *)

(** With no URL for the name, [navigateToPage] warns and goes nowhere. *)
Lemma navigateToPage_unknown (pg : Page) (name : string) :
  getPageUrl (pathname pg) name = Undefined →
  navigateToPage name pg =
    (Normal (),
     withConsole
       (console pg ++
        [{| level := Warn; message := "URL não encontrada para a página: " +:+ name;
            args := [] |}])
       pg).
Proof.
  intros Hurl. unfold navigateToPage. destruct pg as [path d ls h u c r l t].
  run. cbn [pathname] in Hurl. by rewrite Hurl.
Qed.

(** With a name that [Object.prototype] defines it does not warn: on a page
    with no [mainContent] element it assigns the inherited member to
    [location.href]. *)
Lemma navigateToPage_inherited (pg : Page) (name : string) :
  name ∈ objectPrototypeKeys →
  Dom.first (Dom.byId "mainContent") (document pg) = None →
  navigateToPage name pg = (Normal (), withHref (Inherited name) pg).
Proof.
  intros Hname Hmain. unfold navigateToPage. destruct pg as [path d ls h u c r l t].
  run. cbn [document] in Hmain. by rewrite Hmain, getPageUrl_inherited.
Qed.

(** ** The document tree *)

(** Induction on a node with the hypothesis for every child. *)
Lemma Node_ind' (P : Node → Prop) :
  (∀ t a cs, Forall P cs → P (Element t a cs)) →
  (∀ d, P (TextNode d)) →
  ∀ n, P n.
Proof.
  intros Helement Htext.
  fix IH 1. intros [t a cs | d]; [| apply Htext].
  apply Helement. induction cs as [| c cs IHcs]; constructor; [apply IH | apply IHcs].
Qed.

Lemma firstAmong_Some (find : Node → option Path) (l : list Node) (i : nat) (π : Path) :
  Dom.firstAmong find i l = Some π →
  ∃ k c π', π = (i + k)%nat :: π' ∧ l !! k = Some c ∧ find c = Some π' ∧
            ∀ j c', (j < k)%nat → l !! j = Some c' → find c' = None.
Proof.
  revert i. induction l as [| c l IH]; intros i H; [discriminate |].
  cbn in H. destruct (find c) as [π' |] eqn:Hc.
  - injection H as <-. exists 0%nat, c, π'. rewrite Nat.add_0_r.
    repeat split; auto. intros j c' Hj. lia.
  - apply IH in H as (k & c0 & π' & -> & Hk & Hfind & Hbefore).
    exists (S k), c0, π'. rewrite Nat.add_succ_r. repeat split; auto.
    intros [| j] c' Hj Hl; cbn in Hl; [by injection Hl as <- |].
    apply (Hbefore j); [lia | done].
Qed.

Lemma firstAmong_alter (find : Node → option Path) (g : Node → Node)
    (l : list Node) (i k : nat) (c : Node) (π' : Path) :
  l !! k = Some c →
  (∀ j c', (j < k)%nat → l !! j = Some c' → find c' = None) →
  find (g c) = Some π' →
  Dom.firstAmong find i (alter g k l) = Some ((i + k)%nat :: π').
Proof.
  revert i k. induction l as [| c0 l IH]; intros i k Hk Hbefore Hg; [discriminate |].
  destruct k as [| k]; cbn in Hk |- *.
  - injection Hk as ->. by rewrite Hg, Nat.add_0_r.
  - rewrite (Hbefore 0%nat c0); [| lia | done].
    rewrite (IH (S i) k); auto.
    + by rewrite Nat.add_succ_r.
    + intros j c' Hj Hl. apply (Hbefore (S j)); [lia | done].
Qed.

(** The first match is an element of the document and satisfies the
    selector. *)
Lemma first_nodeAt (q : Dom.Selector) (n : Node) (π : Path) :
  Dom.first q n = Some π →
  ∃ t a cs, Dom.nodeAt π n = Some (Element t a cs) ∧ q t a = true.
Proof.
  revert π. induction n as [t a cs IH | d] using Node_ind'; intros π H; [| discriminate].
  cbn in H. destruct (q t a) eqn:Hq.
  - injection H as <-. by exists t, a, cs.
  - apply firstAmong_Some in H as (k & c & π' & -> & Hk & Hfind & _).
    cbn. rewrite Hk. cbn. rewrite Forall_lookup in IH. by apply (IH k c).
Qed.

Lemma nodeAt_updateAt (π : Path) (f : Node → Node) (n m : Node) :
  Dom.nodeAt π n = Some m → Dom.nodeAt π (Dom.updateAt π f n) = Some (f m).
Proof.
  revert n. induction π as [| i π IH]; intros n H; cbn in *; [by injection H as -> |].
  destruct n as [t a cs | d]; [| discriminate].
  rewrite list_lookup_alter_eq. destruct (cs !! i) as [c |]; [| discriminate].
  cbn in *. by apply IH.
Qed.

Lemma updateAt_ext (π : Path) (f g : Node → Node) (n : Node) :
  (∀ m, Dom.nodeAt π n = Some m → f m = g m) →
  Dom.updateAt π f n = Dom.updateAt π g n.
Proof.
  revert n. induction π as [| i π IH]; intros n H; cbn in *; [by apply H |].
  destruct n as [t a cs | d]; [| done]. f_equal.
  apply list_alter_ext; [| done]. intros c Hc. apply IH. intros m Hm.
  apply H. by rewrite Hc.
Qed.

Lemma alter_alter_same {A} (f g : A → A) (i : nat) (l : list A) :
  alter g i (alter f i l) = alter (g ∘ f) i l.
Proof.
  revert i. induction l as [| x l IH]; intros [| i]; cbn; [done .. |].
  f_equal. apply IH.
Qed.

Lemma updateAt_compose (π : Path) (f g : Node → Node) (n : Node) :
  Dom.updateAt π g (Dom.updateAt π f n) = Dom.updateAt π (g ∘ f) n.
Proof.
  revert n. induction π as [| i π IH]; intros n; cbn; [done |].
  destruct n as [t a cs | d]; [| done]. cbn. f_equal.
  rewrite alter_alter_same. apply list_alter_ext; [| done]. intros c _. apply IH.
Qed.

(** An update that keeps the tag and the attributes of the first match
    leaves it the first match. *)
Lemma first_updateAt (q : Dom.Selector) (f : Node → Node) (n : Node) (π : Path) :
  (∀ t a cs, ∃ cs', f (Element t a cs) = Element t a cs') →
  Dom.first q n = Some π →
  Dom.first q (Dom.updateAt π f n) = Some π.
Proof.
  intros Hf. revert π.
  induction n as [t a cs IH | d] using Node_ind'; intros π H; [| discriminate].
  cbn in H. destruct (q t a) eqn:Hq.
  - injection H as <-. cbn. destruct (Hf t a cs) as [cs' ->]. cbn. by rewrite Hq.
  - apply firstAmong_Some in H as (k & c & π' & -> & Hk & Hfind & Hbefore).
    cbn. rewrite Hq. apply (firstAmong_alter _ _ _ 0%nat k c); auto.
    rewrite Forall_lookup in IH. by apply (IH k c).
Qed.

(** ** Layout auto-repair *)

Lemma filter_ext_in {A} (P Q : A → Prop) `{!∀ x, Decision (P x), !∀ x, Decision (Q x)}
    (l : list A) :
  (∀ x, x ∈ l → P x ↔ Q x) → filter P l = filter Q l.
Proof.
  induction l as [| x l IH]; intros Hext; [done |].
  rewrite !filter_cons, IH by (intros y Hy; apply Hext; by right).
  assert (P x ↔ Q x) by (apply Hext; by left).
  destruct (decide (P x)), (decide (Q x)); tauto || done.
Qed.

Lemma filter_all {A} (P : A → Prop) `{!∀ x, Decision (P x)} (l : list A) :
  (∀ x, x ∈ l → P x) → filter P l = l.
Proof.
  induction l as [| x l IH]; intros Hall; [done |].
  rewrite filter_cons_True by (apply Hall; by left).
  f_equal. apply IH. intros y Hy. apply Hall. by right.
Qed.

(** One class of containers appended: they leave the lists they are in
    and go, in their order, to the end of the content area. *)
Lemma foldl_appendChild (F K A : list (nat * Node)) :
  NoDup F.*1 →
  foldl Repair.appendChild (K, A) F =
    (filter (λ c, c.1 ∉ F.*1) K, filter (λ c, c.1 ∉ F.*1) A ++ F).
Proof.
  revert K A. induction F as [| c F IH]; intros K A Hnd; cbn [foldl fmap list_fmap].
  - rewrite app_nil_r, !filter_all; [done | intros x _; apply not_elem_of_nil ..].
  - apply NoDup_cons in Hnd as [Hc Hnd].
    replace (Repair.appendChild (K, A) c)
      with (Repair.without c.1 K, Repair.without c.1 A ++ [c]) by done.
    rewrite IH by done. unfold Repair.without. f_equal.
    + rewrite list_filter_filter. apply list_filter_iff. intros x.
      cbn. rewrite not_elem_of_cons. tauto.
    + rewrite filter_app, list_filter_filter, filter_cons_True by done.
      rewrite filter_nil, <- app_assoc. cbn. f_equal.
      apply list_filter_iff. intros x. rewrite not_elem_of_cons. tauto.
Qed.

Lemma numbered_fst (cs : list Node) : (Repair.numbered cs).*1 = seq 0 (length cs).
Proof. unfold Repair.numbered. apply fst_zip. by rewrite length_seq. Qed.

Lemma numbered_NoDup (cs : list Node) : NoDup (Repair.numbered cs).*1.
Proof. rewrite numbered_fst. apply NoDup_seq. Qed.

Lemma NoDup_fst_inj {A B} (l : list (A * B)) (x y : A * B) :
  NoDup l.*1 → x ∈ l → y ∈ l → x.1 = y.1 → x = y.
Proof.
  induction l as [| z l IH]; intros Hnd Hx Hy Heq; [by apply elem_of_nil in Hx |].
  cbn in Hnd. apply NoDup_cons in Hnd as [Hz Hnd].
  apply elem_of_cons in Hx as [-> | Hx]; apply elem_of_cons in Hy as [-> | Hy]; auto.
  - exfalso. apply Hz. rewrite Heq. by apply list_elem_of_fmap_2.
  - exfalso. apply Hz. rewrite <- Heq. by apply list_elem_of_fmap_2.
Qed.

Lemma NoDup_fst_filter {A B} (P : A * B → Prop) `{!∀ c, Decision (P c)}
    (l : list (A * B)) :
  NoDup l.*1 → NoDup (filter P l).*1.
Proof.
  induction l as [| x l IH]; intros Hnd; [done |].
  cbn in Hnd. apply NoDup_cons in Hnd as [Hx Hnd]. rewrite filter_cons.
  destruct (decide (P x)); [| by apply IH].
  cbn. apply NoDup_cons. split; [| by apply IH].
  intros Hin. apply Hx. apply list_elem_of_fmap in Hin as (y & -> & Hy).
  apply list_elem_of_filter in Hy as [_ Hy]. by apply list_elem_of_fmap_2.
Qed.

(** One class of containers appended, when the class is read off the
    children: the others stay where they are. *)
Lemma appendChild_class (P : nat * Node → Prop) `{!∀ c, Decision (P c)}
    (N K A : list (nat * Node)) :
  NoDup N.*1 → K ⊆ N → A ⊆ N →
  foldl Repair.appendChild (K, A) (filter P N) =
    (filter (λ c, ¬ P c) K, filter (λ c, ¬ P c) A ++ filter P N).
Proof.
  intros Hnd HK HA.
  assert (∀ x, x ∈ N → x.1 ∉ (filter P N).*1 ↔ ¬ P x) as Hiff.
  { intros x Hx. split; intros Hnot Hp; apply Hnot.
    - apply list_elem_of_fmap_2. by apply list_elem_of_filter.
    - apply list_elem_of_fmap in Hp as (y & Heq & Hy).
      apply list_elem_of_filter in Hy as [Hpy Hy].
      by rewrite (NoDup_fst_inj N x y). }
  rewrite foldl_appendChild.
  - f_equal; [| f_equal]; apply filter_ext_in; intros x Hx; apply Hiff;
      [by apply HK | by apply HA].
  - by apply NoDup_fst_filter.
Qed.

(** A filter on the numbered children that does not look at the numbers
    is a filter on the children. *)
Lemma filter_numbered (P : nat * Node → Prop) (Q : Node → Prop)
    `{!∀ c, Decision (P c), !∀ c, Decision (Q c)} (cs : list Node) :
  (∀ i c, P (i, c) ↔ Q c) →
  (filter P (Repair.numbered cs)).*2 = filter Q cs.
Proof.
  intros Hiff. unfold Repair.numbered. generalize 0%nat.
  induction cs as [| c cs IH]; intros i; [done |].
  cbn [length seq zip zip_with]. rewrite !filter_cons.
  specialize (Hiff i c).
  destruct (decide (P (i, c))), (decide (Q c)); try tauto; cbn; by rewrite IH.
Qed.

Lemma filter_inside {A} (P : A → Prop) `{!∀ x, Decision (P x)} (l k : list A) :
  l ⊆ k → filter P l ⊆ k.
Proof. intros Hl x Hx. apply Hl. by apply list_elem_of_filter in Hx as [_ Hx]. Qed.

Lemma app_inside {A} (l1 l2 k : list A) : l1 ⊆ k → l2 ⊆ k → l1 ++ l2 ⊆ k.
Proof. intros H1 H2 x Hx. apply elem_of_app in Hx as [Hx | Hx]; auto. Qed.

Lemma nil_inside {A} (k : list A) : [] ⊆ k.
Proof. intros x Hx. by apply elem_of_nil in Hx. Qed.

Ltac inside := repeat (apply filter_inside || apply app_inside || apply nil_inside); done.

(** The class that [sectionClass] gives, in terms of the four classes. *)
Lemma sectionClass_cases (c : Node) :
  let has selector := hasSection selector c = true in
  (sectionClass c = Some "form-section" ↔
     has "form-section" ∧ ¬ has "pautas-section" ∧ ¬ has "dashboard-section" ∧
     ¬ has "content-section") ∧
  (sectionClass c = Some "pautas-section" ↔
     has "pautas-section" ∧ ¬ has "dashboard-section" ∧ ¬ has "content-section") ∧
  (sectionClass c = Some "dashboard-section" ↔
     has "dashboard-section" ∧ ¬ has "content-section") ∧
  (sectionClass c = Some "content-section" ↔ has "content-section") ∧
  (isContainer c = false ↔
     ¬ has "form-section" ∧ ¬ has "pautas-section" ∧ ¬ has "dashboard-section" ∧
     ¬ has "content-section").
Proof.
  unfold sectionClass, isContainer, Repair.containerSelectors. cbn [existsb].
  rewrite !filter_cons, filter_nil.
  destruct (hasSection "form-section" c), (hasSection "pautas-section" c),
    (hasSection "dashboard-section" c), (hasSection "content-section" c);
    repeat case_decide; try done; cbn; intuition congruence.
Qed.

(** What the loop of [appendChild] and the last [appendChild] leave below
    [mainContent]: the children that are no containers, in their order, and
    after them the outer wrapper around the inner wrapper around the
    containers, grouped by class. *)
Lemma wrap_grouped (cs : list Node) :
  Repair.wrap cs =
    filter (λ c, isContainer c = false) cs ++
    [Dom.div "page-content-wrapper" [Dom.div "content-area" (grouped cs)]].
Proof.
  pose proof (numbered_NoDup cs) as Hnd.
  unfold Repair.wrap, Repair.containersToWrap, Repair.containerSelectors.
  cbn [flat_map]. rewrite app_nil_r. set (N := Repair.numbered cs) in *.
  rewrite !foldl_app.
  rewrite (appendChild_class _ N N []) by (done || inside).
  rewrite (appendChild_class _ N) by (done || inside).
  rewrite (appendChild_class _ N) by (done || inside).
  rewrite (appendChild_class _ N) by (done || inside).
  rewrite filter_nil, app_nil_l, !filter_app, !list_filter_filter, !fmap_app.
  subst N. f_equal.
  - apply filter_numbered. intros i c. cbn [snd].
    destruct (sectionClass_cases c) as (_ & _ & _ & _ & ->).
    unfold hasSection. tauto.
  - unfold Dom.div, grouped, Repair.containerSelectors. cbn [flat_map].
    rewrite app_nil_r, <- !app_assoc. repeat (f_equal; []).
    repeat match goal with |- _ ++ _ = _ ++ _ => f_equal end;
      apply filter_numbered; intros i c; cbn [snd];
      destruct (sectionClass_cases c) as (H1 & H2 & H3 & H4 & _);
      unfold hasSection in *; tauto.
Qed.

(** Every container is moved, and nothing else. *)
Lemma grouped_Permutation (cs : list Node) :
  grouped cs ≡ₚ filter (λ c, isContainer c = true) cs.
Proof.
  unfold grouped, Repair.containerSelectors. cbn [flat_map]. rewrite app_nil_r.
  induction cs as [| c cs IH]; [done |].
  rewrite !filter_cons.
  destruct (sectionClass_cases c) as (H1 & H2 & H3 & H4 & H5).
  assert (isContainer c = true ↔ ¬ isContainer c = false) as H6
    by (destruct (isContainer c); split; congruence).
  rewrite H5 in H6. cbn zeta in *.
  repeat case_decide; try tauto; cbn [app];
    rewrite <- ?Permutation_middle; try (constructor; exact IH); try exact IH.
  all: exfalso; tauto.
Qed.

Lemma numbered_elem_of (cs : list Node) (c : Node) :
  c ∈ cs → ∃ i, (i, c) ∈ Repair.numbered cs.
Proof.
  intros Hc.
  assert ((Repair.numbered cs).*2 = cs) as Heq
    by (apply snd_zip; by rewrite length_seq).
  rewrite <- Heq in Hc. apply list_elem_of_fmap in Hc as ([i c'] & -> & Hin).
  by exists i.
Qed.

(** There is something to wrap when a direct child is a container. *)
Lemma containersToWrap_nonempty (cs : list Node) (c : Node) :
  c ∈ cs → isContainer c = true → Repair.containersToWrap cs ≠ [].
Proof.
  intros Hc Hcont Hnil. apply numbered_elem_of in Hc as [i Hi].
  assert (∀ selector, selector ∈ Repair.containerSelectors →
            hasSection selector c = false) as Hnone.
  { intros selector Hsel. destruct (hasSection selector c) eqn:Hhas; [| done].
    exfalso. apply (not_elem_of_nil (i, c)). rewrite <- Hnil.
    unfold Repair.containersToWrap. apply list_elem_of_In, in_flat_map.
    exists selector. split; [by apply list_elem_of_In |].
    apply list_elem_of_In, list_elem_of_filter. by split. }
  unfold isContainer in Hcont. apply existsb_exists in Hcont as (selector & Hsel & Hhas).
  rewrite Hnone in Hhas; [done | by apply list_elem_of_In].
Qed.

Lemma wrapped_has_wrapper (t : string) (a : list (string * string)) (cs : list Node) :
  Dom.hasDescendant isWrapper (Repair.wrapped (Element t a cs)) = true.
Proof.
  cbn [Repair.wrapped Dom.hasDescendant]. rewrite wrap_grouped, existsb_app.
  apply orb_true_iff. right. reflexivity.
Qed.

Lemma autoFix_settled (pg : Page) :
  settled (document pg) → autoFixFormSectionLayout pg = (Normal (), pg).
Proof.
  unfold settled, autoFixFormSectionLayout, isMainContent, isWrapper.
  destruct pg as [path d ls h u c r l t]. run.
  destruct (Dom.first (Dom.byClass "main-content") d) as [el |]; [| done].
  intros (m & -> & [Hw | Hnil]); cbn [default from_option id].
  - by rewrite Hw.
  - rewrite Hnil. by destruct (Dom.hasDescendant _ m).
Qed.

Lemma autoFix_wraps_run (pg : Page) (el : Path) (m : Node) :
  Dom.first isMainContent (document pg) = Some el →
  Dom.nodeAt el (document pg) = Some m →
  Dom.hasDescendant isWrapper m = false →
  Repair.containersToWrap (Dom.children m) ≠ [] →
  autoFixFormSectionLayout pg =
    (Normal (),
     withDocument (Dom.updateAt el Repair.wrapped (document pg))
       (withConsole
          (console pg ++
           [{| level := Log;
               message :=
                 "🔧 Auto-corrigindo layout: envolvendo containers com wrappers necessários";
               args := [ArgTexts (Repair.className <$>
                                    (Repair.containersToWrap (Dom.children m)).*2)] |}])
          pg)).
Proof.
  unfold autoFixFormSectionLayout, isMainContent, isWrapper.
  destruct pg as [path d ls h u c r l t]. cbn [document console]. run.
  intros -> ->. cbn [default from_option id]. intros -> Hne.
  by destruct (Repair.containersToWrap (Dom.children m)).
Qed.

Lemma wrapped_keeps (t : string) (a : list (string * string)) (cs : list Node) :
  ∃ cs', Repair.wrapped (Element t a cs) = Element t a cs'.
Proof. by eexists. Qed.

(** After the repair there is nothing left to repair. *)
Lemma autoFix_settles (pg : Page) :
  settled (document (after autoFixFormSectionLayout pg)).
Proof.
  assert (settled (document pg) →
          settled (document (after autoFixFormSectionLayout pg))) as Hstay.
  { intros Hs. unfold after. by rewrite autoFix_settled. }
  destruct (Dom.first isMainContent (document pg)) as [el |] eqn:Hfirst.
  - destruct (first_nodeAt _ _ _ Hfirst) as (t & a & cs & Hnode & _).
    destruct (Dom.hasDescendant isWrapper (Element t a cs)) eqn:Hw.
    { apply Hstay. unfold settled. rewrite Hfirst. eauto. }
    destruct (Repair.containersToWrap cs) as [| c0 cs0] eqn:Hcs.
    { apply Hstay. unfold settled. rewrite Hfirst. eauto. }
    unfold after.
    rewrite (autoFix_wraps_run pg el (Element t a cs))
      by (try done; cbn [Dom.children]; by rewrite Hcs).
    cbn [snd]. unfold settled. cbn [document withDocument].
    rewrite (first_updateAt _ _ _ _ wrapped_keeps Hfirst).
    exists (Repair.wrapped (Element t a cs)). split.
    + by apply nodeAt_updateAt.
    + left. apply wrapped_has_wrapper.
  - apply Hstay. unfold settled. by rewrite Hfirst.
Qed.

(** C6. A second run of the repair changes nothing: the document, and the
    whole page, are as the first run left them. *)
Theorem autoFix_idempotent (pg : Page) :
  document (after (autoFixFormSectionLayout;; autoFixFormSectionLayout) pg) =
    document (after autoFixFormSectionLayout pg) ∧
  autoFixFormSectionLayout (after autoFixFormSectionLayout pg) =
    (Normal (), after autoFixFormSectionLayout pg).
Proof.
  pose proof (autoFix_settled _ (autoFix_settles pg)) as Hsecond. split; [| done].
  unfold after in *. unfold mbind, M_bind.
  destruct (autoFixFormSectionLayout pg) as [[[] | e] pg'] eqn:Hfirst; [| done].
  cbn [snd] in Hsecond. by rewrite Hsecond.
Qed.

(** C5, as the code has it.  Where [mainContent] exists, has no wrapper
    below it and has containers among its direct children, the repair
    leaves below it the children that are no containers, in their order,
    and after them a new outer wrapper around a new inner wrapper that
    holds every container: those of the first section class that are of no
    later one come first, and so on class after class, the containers of
    one class in the order the document had them in. *)
Theorem autoFix_wraps (pg : Page) (el : Path) (t : string)
    (a : list (string * string)) (cs : list Node) :
  Dom.first isMainContent (document pg) = Some el →
  Dom.nodeAt el (document pg) = Some (Element t a cs) →
  Dom.hasDescendant isWrapper (Element t a cs) = false →
  (∃ c, c ∈ cs ∧ isContainer c = true) →
  document (after autoFixFormSectionLayout pg) =
    Dom.updateAt el
      (λ _, Element t a
              (filter (λ c, isContainer c = false) cs ++
               [Dom.div "page-content-wrapper" [Dom.div "content-area" (grouped cs)]]))
      (document pg) ∧
  grouped cs ≡ₚ filter (λ c, isContainer c = true) cs.
Proof.
  intros Hfirst Hnode Hw (c & Hc & Hcont). split; [| apply grouped_Permutation].
  unfold after. rewrite (autoFix_wraps_run pg el (Element t a cs)); try done.
  - cbn [snd document withDocument]. apply updateAt_ext. intros m Hm.
    rewrite Hnode in Hm. injection Hm as <-. cbn [Repair.wrapped].
    by rewrite wrap_grouped.
  - by apply (containersToWrap_nonempty cs c).
Qed.

Lemma autoFix_wraps_witness :
  let pg := freshPage "/telas2/app/cadastro_de_pautas.html"
              (legacyDocument [sectionA; TextNode " "; sectionB; sectionC]) ∅ in
  document (after autoFixFormSectionLayout pg) =
    legacyDocument
      [ TextNode " ";
        Dom.div "page-content-wrapper"
          [Dom.div "content-area" [sectionB; sectionC; sectionA]] ].
Proof.
  cbn zeta.
  refine (proj1 (autoFix_wraps _ [1; 1]%nat "main" [("class", "main-content")]
                   [sectionA; TextNode " "; sectionB; sectionC] _ _ _ _)).
  - reflexivity.
  - reflexivity.
  - reflexivity.
  - exists sectionA. split; [by left | reflexivity].
Defined.

(** C5 does not hold as stated: a [content-section] that stands before a
    [form-section] comes after it in the inner wrapper. *)
Lemma autoFix_reorders :
  let cs := [sectionA; sectionB] in
  let pg := freshPage "/telas2/app/cadastro_de_pautas.html" (legacyDocument cs) ∅ in
  Dom.first isMainContent (document pg) = Some [1; 1]%nat ∧
  Dom.nodeAt [1; 1]%nat (document pg) =
    Some (Element "main" [("class", "main-content")] cs) ∧
  Dom.hasDescendant isWrapper (Element "main" [("class", "main-content")] cs) = false ∧
  filter (λ c, isContainer c = true) cs = [sectionA; sectionB] ∧
  Dom.nodeAt [1; 1; 0; 0]%nat (document (after autoFixFormSectionLayout pg)) =
    Some (Dom.div "content-area" [sectionB; sectionA]) ∧
  [sectionB; sectionA] ≠ filter (λ c, isContainer c = true) cs.
Proof. cbn zeta. by vm_compute. Qed.

(** ** Fragments, layout and logout *)

Section NetworkProperties.

Variable parseHTML : string → string → list Node.
Variable server : list Request → FetchOutcome.

Lemma loadComponent_absent (componentPath targetElementId : string) (pg : Page) :
  Dom.first (Dom.byId targetElementId) (document pg) = None →
  loadComponent parseHTML server componentPath targetElementId pg = (Normal (), pg).
Proof.
  intros Hnone. unfold loadComponent. destruct pg as [path d ls h u c r l t].
  run. cbn [document] in Hnone. by rewrite Hnone.
Qed.

(** C8. Where no element has the target identifier, [loadComponent] makes
    no request and leaves the document, and the whole page, as it was; it
    returns normally. *)
Theorem loadComponent_no_target (componentPath targetElementId : string) (pg : Page) :
  Dom.first (Dom.byId targetElementId) (document pg) = None →
  let load := loadComponent parseHTML server componentPath targetElementId in
  outcome load pg = Normal () ∧
  requests (after load pg) = requests pg ∧
  document (after load pg) = document pg ∧
  after load pg = pg.
Proof.
  intros Hnone. cbn zeta. unfold outcome, after.
  by rewrite loadComponent_absent.
Qed.

(** What [loadComponent] does with a target: one request, and the content
    of the target replaced by the fragment or by the error markup. *)
Lemma loadComponent_present (componentPath targetElementId : string) (pg : Page)
    (el : Path) :
  Dom.first (Dom.byId targetElementId) (document pg) = Some el →
  loadComponent parseHTML server componentPath targetElementId pg =
    let sent := withRequests (requests pg ++ [get componentPath]) pg in
    match server (requests pg ++ [get componentPath]) with
    | Responded {| ok := true; body := BodyText text |} =>
        (Normal (),
         withDocument (Dom.updateAt el (withMarkup parseHTML text) (document pg)) sent)
    | o =>
        let e := default TypeError (loadFailure componentPath o) in
        (Normal (),
         withDocument
           (Dom.updateAt el (withMarkup parseHTML (errorMarkup componentPath))
              (document pg))
           (withConsole
              (console pg ++
               [{| level := Err; message := "Erro ao carregar componente:";
                   args := [ArgException e] |}])
              sent))
    end.
Proof.
  intros Hsome. unfold loadComponent, fetch, responseText, setInnerHTML, get.
  destruct pg as [path d ls h u c r l t]. run. cbn [document] in Hsome.
  rewrite Hsome. run.
  destruct (server _) as [reason | [[] [text | reason]]]; reflexivity.
Qed.

Lemma prefix_app (p s : string) : String.prefix p (p +:+ s) = true.
Proof.
  induction p as [| c p IH]; [by destruct s |].
  change (String c p +:+ s) with (String c (p +:+ s)). cbn [String.prefix].
  by destruct (ascii_dec c c).
Qed.

Lemma includes_app (needle before rest : string) :
  Str.includes needle (before +:+ needle +:+ rest) = true.
Proof.
  induction before as [| c before IH].
  - change (EmptyString +:+ needle +:+ rest) with (needle +:+ rest).
    destruct needle as [| c needle]; [by destruct rest |].
    pose proof (prefix_app (String c needle) rest) as Hp.
    change (String c needle +:+ rest) with (String c (needle +:+ rest)) in *.
    cbn [Str.includes]. by rewrite Hp.
  - change (String c before +:+ needle +:+ rest)
      with (String c (before +:+ needle +:+ rest)).
    cbn [Str.includes]. rewrite IH. by destruct (String.prefix _ _).
Qed.

(** The error markup names the path of the fragment. *)
Lemma errorMarkup_names (componentPath : string) :
  Str.includes componentPath (errorMarkup componentPath) = true.
Proof. unfold errorMarkup. apply includes_app. Qed.

(** C7. Where the target exists and the request fails (a rejected
    [fetch], a status that is not OK, a body that cannot be read),
    [loadComponent] logs the exception as an error, puts the error markup,
    which names the path, in place of the content of the target, and
    returns normally. *)
Theorem loadComponent_failure (componentPath targetElementId : string) (pg : Page)
    (el : Path) (e : Exception) :
  Dom.first (Dom.byId targetElementId) (document pg) = Some el →
  loadFailure componentPath (server (requests pg ++ [get componentPath])) = Some e →
  let load := loadComponent parseHTML server componentPath targetElementId in
  outcome load pg = Normal () ∧
  console (after load pg) =
    console pg ++ [{| level := Err; message := "Erro ao carregar componente:";
                      args := [ArgException e] |}] ∧
  document (after load pg) =
    Dom.updateAt el (withMarkup parseHTML (errorMarkup componentPath)) (document pg) ∧
  Str.includes componentPath (errorMarkup componentPath) = true ∧
  requests (after load pg) = requests pg ++ [get componentPath].
Proof.
  intros Hsome Hfail. cbn zeta. unfold outcome, after.
  rewrite (loadComponent_present _ _ _ el Hsome). cbn zeta.
  destruct (server _) as [reason | [[] [text | reason]]]; cbn in Hfail;
    try discriminate Hfail; injection Hfail as <-;
    cbn [fst snd default from_option id]; auto using errorMarkup_names.
Qed.













Lemma after_bind {A B} (m : M A) (f : A → M B) (pg : Page) (a : A) :
  outcome m pg = Normal a → after (m ≫= f) pg = after (f a) (after m pg).
Proof.
  unfold outcome, after, mbind, M_bind.
  destruct (m pg) as [[a' | e] pg']; cbn [fst snd]; [| done]. by intros [= ->].
Qed.



(** [initLayout] is the fragments of the context and then the rest. *)
Lemma initLayout_branches (pageConfig : option PageConfig) (pg : Page) :
  let path := pathname pg in
  let basePath := getBasePath path in
  let load := loadComponent parseHTML server in
  initLayout parseHTML server pageConfig pg =
    ((if Str.includes "/admin/" path then
        load (basePath +:+ "/components/admin_sidebar.html") "sidebar-placeholder";;
        load (basePath +:+ "/components/admin_header.html") "header-placeholder"
      else if Str.includes "/app/" path then
        load (basePath +:+ "/components/app_sidebar.html") "sidebar-placeholder";;
        load (basePath +:+ "/components/app_header.html") "header-placeholder"
      else if Str.includes "/portal/" path then
        load (basePath +:+ "/components/portal_navbar.html") "navbar-placeholder";;
        load (basePath +:+ "/components/portal_footer.html") "footer-placeholder"
      else mret ());;
     finishLayout pageConfig) pg.
Proof. reflexivity. Qed.

End NetworkProperties.

(** ** The two fragments of a context, and the order of [logout] *)

Section FragmentsOfAContext.

Variable parseHTML : string → string → list Node.
Variable server : list Request → FetchOutcome.




Lemma afterLoad_pathname (componentPath : string) (el : Path) (o : FetchOutcome)
    (pg : Page) :
  pathname (afterLoad parseHTML componentPath el o pg) = pathname pg.
Proof. unfold afterLoad. destruct (loadFailure _ _); by destruct pg. Qed.




End FragmentsOfAContext.



(** With one of the two placeholders, one fragment is loaded. *)
Example initLayout_one_placeholder :
  let pg := freshPage "/telas2/app/dashboard.html" (legacyDocument []) ∅ in
  let run := initLayout asText (serving "<nav>menu</nav>") None in
  requests (after run pg) = [get "/telas2/components/app_sidebar.html"] ∧
  Dom.nodeAt [1; 0]%nat (document (after run pg)) =
    Some (Element "div" [("id", "sidebar-placeholder")] [TextNode "<nav>menu</nav>"]).
Proof. cbn zeta. by vm_compute. Qed.

Section LogoutPending.

Variable server : list Request → FetchOutcome.

Lemma logoutPending_id (pg : Page) : logoutPending server id pg = logout server pg.
Proof. reflexivity. Qed.

(** C9. Whatever the answer of the server, and whatever else runs on the
    page while the request is pending, [logout] returns normally, with the
    token and the user record gone from the store and the browser sent to
    the login page.  With a token in the store the notification comes
    first: the one request, a [POST] to the fixed endpoint with the token
    as bearer, goes out from a page whose store and location are as they
    were, and it is only when the request is answered that the answer is
    logged (an error for a rejected request, a warning for a status that
    is not OK) and the two entries are removed, from the store as the
    pending time left it.  With no token no request is made. *)
Theorem logout_always (during : Page → Page) (pg : Page) :
  let run := logoutPending server during in
  let pg' := after run pg in
  logoutPending server id pg = logout server pg ∧
  outcome run pg = Normal () ∧
  localStorage pg' !! "authToken" = None ∧
  localStorage pg' !! "userData" = None ∧
  href pg' = Some (Own (getBasePath (pathname pg') +:+ "/app/login.html")) ∧
  match localStorage pg !! "authToken" with
  | Some (String c token' as token) =>
      let answer := server (requests pg ++ [logoutRequest token]) in
      let pending := during (notifying token pg) in
      localStorage (notifying token pg) = localStorage pg ∧
      href (notifying token pg) = href pg ∧
      requests (notifying token pg) = requests pg ++ [logoutRequest token] ∧
      localStorage pg' = delete "userData" (delete "authToken" (localStorage pending)) ∧
      requests pg' = requests pending ∧
      console pg' = console pending ++ [notificationEntry answer] ∧
      run pg = signOut (withConsole (console pending ++ [notificationEntry answer]) pending)
  | _ =>
      requests pg' = requests pg ∧
      localStorage pg' = delete "userData" (delete "authToken" (localStorage pg))
  end.
Proof.
  cbn zeta. split; [reflexivity |].
  unfold outcome, after, logoutPending, fetchPending, notifying, logoutRequest, signOut.
  destruct pg as [path d ls h u c r l t]. run.
  destruct (ls !! "authToken") as [[| c0 token'] |] eqn:Htoken; cbn [Str.truthy]; run;
    try (destruct (server _) as [reason | [[] b]]; run);
    cbn [default from_option id notificationEntry ok];
    rewrite ?lookup_delete_eq, ?lookup_delete_ne, ?lookup_delete_eq by done;
    repeat (split; [done |]); try done.
Qed.

End LogoutPending.

(** While the request is pending the token is still in the store: a task
    that runs then finds it, and when [logout] is done it is gone. *)
Example logout_pending_sees_token :
  let pg := freshPage "/telas2/app/dashboard.html" emptyDocument
              {[ "authToken" := "t0k3n"; "userData" := sampleUser ]} in
  let pg' := after (logoutPending offline noteToken) pg in
  console pg' !! 2%nat =
    Some {| level := Log; message := "token"; args := [ArgTexts ["t0k3n"]] |} ∧
  localStorage pg' !! "authToken" = None ∧
  localStorage pg' !! "userData" = None.
Proof. cbn zeta. by vm_compute. Qed.

(** ** The theorems at work *)

Lemma loadComponent_no_target_witness :
  let pg := freshPage "/telas2/app/dashboard.html" (legacyDocument []) ∅ in
  let load := loadComponent asText notFound
                "/telas2/components/app_header.html" "header-placeholder" in
  outcome load pg = Normal () ∧
  requests (after load pg) = [] ∧
  document (after load pg) = legacyDocument [] ∧
  after load pg = pg.
Proof.
  cbn zeta.
  refine (loadComponent_no_target asText notFound _ "header-placeholder" _ _).
  reflexivity.
Defined.

Lemma loadComponent_failure_witness :
  let pg := freshPage "/telas2/app/dashboard.html" (legacyDocument []) ∅ in
  let path := "/telas2/components/app_sidebar.html" in
  let load := loadComponent asText notFound path "sidebar-placeholder" in
  outcome load pg = Normal () ∧
  console (after load pg) =
    [{| level := Err; message := "Erro ao carregar componente:";
        args := [ArgException (Error ("Componente não encontrado: " +:+ path))] |}] ∧
  document (after load pg) =
    Dom.updateAt [1; 0]%nat (λ n, Element "div" [("id", "sidebar-placeholder")]
                                    [TextNode (errorMarkup path)])
      (legacyDocument []) ∧
  Str.includes path (errorMarkup path) = true ∧
  requests (after load pg) = [get path].
Proof.
  cbn zeta.
  refine (loadComponent_failure asText notFound _ "sidebar-placeholder" _ [1; 0]%nat _ _ _).
  - reflexivity.
  - reflexivity.
Defined.

(** * More of the script *)

(** ** Class tokens *)

Lemma append_assoc (a b c : string) : (a +:+ b) +:+ c = a +:+ b +:+ c.
Proof.
  induction a as [| x a IH]; [done |].
  change (String x ((a +:+ b) +:+ c) = String x (a +:+ b +:+ c)). by rewrite IH.
Qed.

Lemma append_empty_r (a : string) : a +:+ EmptyString = a.
Proof.
  induction a as [| x a IH]; [done |].
  change (String x (a +:+ EmptyString) = String x a). by rewrite IH.
Qed.

Lemma tokensFrom_word (cur w s : string) :
  spaceless w = true → Dom.tokensFrom cur (w +:+ s) = Dom.tokensFrom (cur +:+ w) s.
Proof.
  revert cur. induction w as [| c w IH]; intros cur Hw.
  - change (EmptyString +:+ s) with s. by rewrite append_empty_r.
  - cbn in Hw. apply andb_true_iff in Hw as [Hc Hw]. apply negb_true_iff in Hc.
    change (String c w +:+ s) with (String c (w +:+ s)). cbn [Dom.tokensFrom].
    rewrite Hc, IH by done. f_equal. by rewrite append_assoc.
Qed.

Lemma spaceless_app (a b : string) :
  spaceless a = true → spaceless b = true → spaceless (a +:+ b) = true.
Proof.
  intros Ha Hb. induction a as [| x a IH]; [done |].
  change (String x a +:+ b) with (String x (a +:+ b)). cbn in *.
  apply andb_true_iff in Ha as [-> Ha]. by rewrite IH.
Qed.

Lemma tokensFrom_space (cur s : string) (c : ascii) :
  cur ≠ EmptyString → Dom.isSpace c = true →
  Dom.tokensFrom cur (String c s) = cur :: Dom.tokensFrom EmptyString s.
Proof. intros Hcur Hc. cbn. rewrite Hc. by destruct cur. Qed.

(** The tokens of a text are tokens. *)
Lemma tokensFrom_tokens (cur s : string) :
  spaceless cur = true → Forall isToken (Dom.tokensFrom cur s).
Proof.
  revert cur. induction s as [| c s IH]; intros cur Hcur; cbn.
  - destruct cur; [constructor |]. by repeat constructor.
  - destruct (Dom.isSpace c) eqn:Hc.
    + destruct cur; [by apply IH |]. constructor; [done | by apply IH].
    + apply IH, spaceless_app; [done |]. cbn. by rewrite Hc.
Qed.

(** Tokens joined by spaces and split again are the tokens. *)
Lemma tokens_join (l : list string) :
  Forall isToken l → Dom.tokensFrom EmptyString (Dom.joinTokens l) = l.
Proof.
  induction l as [| x l IH]; intros Hl; [done |].
  apply Forall_cons in Hl as [[Hx Hs] Hl]. destruct l as [| y l].
  - cbn [Dom.joinTokens]. pose proof (tokensFrom_word EmptyString x EmptyString Hs) as Hw.
    rewrite append_empty_r in Hw. rewrite Hw.
    change (EmptyString +:+ x) with x. by destruct x.
  - change (Dom.joinTokens (x :: y :: l))
      with (x +:+ String " " (Dom.joinTokens (y :: l))).
    rewrite tokensFrom_word by done. change (EmptyString +:+ x) with x.
    rewrite tokensFrom_space by done. by rewrite IH.
Qed.

Lemma orderedSet_elem_of (x : string) (seen l : list string) :
  x ∈ Dom.orderedSet seen l ↔ x ∈ l ∧ x ∉ seen.
Proof.
  revert seen. induction l as [| y l IH]; intros seen; cbn.
  - split; [by intros ?%elem_of_nil | by intros [?%elem_of_nil _]].
  - case_bool_decide as Hy.
    + rewrite IH, elem_of_cons. split; [tauto |].
      intros [[-> | Hx] Hseen]; [done | tauto].
    + rewrite !elem_of_cons, IH, not_elem_of_cons. split.
      * intros [-> | [Hx [Hne Hseen]]]; tauto.
      * intros [[-> | Hx] Hseen]; [tauto |].
        destruct (decide (x = y)) as [-> | Hne]; tauto.
Qed.

Lemma orderedSet_Forall (P : string → Prop) (seen l : list string) :
  Forall P l → Forall P (Dom.orderedSet seen l).
Proof.
  intros Hl. apply Forall_forall. intros x Hx.
  apply orderedSet_elem_of in Hx as [Hx _]. by eapply Forall_forall in Hl.
Qed.

Lemma attribute_setAttribute (name value : string) (a : list (string * string)) :
  Dom.attribute name (Dom.setAttribute name value a) = Some value.
Proof.
  induction a as [| [k v] a IH]; cbn; [by rewrite String.eqb_refl |].
  destruct (String.eqb k name) eqn:Hk; cbn; by rewrite Hk.
Qed.

Lemma attribute_setAttribute_ne (name other value : string) (a : list (string * string)) :
  other ≠ name →
  Dom.attribute other (Dom.setAttribute name value a) = Dom.attribute other a.
Proof.
  intros Hne. induction a as [| [k v] a IH]; cbn.
  - by apply String.eqb_neq in Hne as Hne'; rewrite String.eqb_sym, Hne'.
  - destruct (String.eqb k name) eqn:Hk; cbn; [| by rewrite IH].
    apply String.eqb_eq in Hk as ->.
    by apply String.eqb_neq in Hne as Hne'; rewrite String.eqb_sym, Hne'.
Qed.

(** The class list read back after it was written from tokens. *)
Lemma classList_written (l : list string) (a : list (string * string)) :
  Forall isToken l →
  Dom.classList (Dom.setAttribute "class" (Dom.joinTokens l) a) = l.
Proof.
  intros Hl. unfold Dom.classList. rewrite attribute_setAttribute. by apply tokens_join.
Qed.

Lemma classList_tokens (a : list (string * string)) : Forall isToken (Dom.classList a).
Proof. by apply tokensFrom_tokens. Qed.

(** [add] then [contains]. *)
Lemma contains_add (token : string) (t : string) (a : list (string * string))
    (cs : list Node) :
  isToken token →
  ClassList.contains token (Dom.classListAdd token (Element t a cs)) = true.
Proof.
  intros Htoken. unfold ClassList.contains. cbn [Dom.classListAdd Dom.matches].
  unfold Dom.byClass. apply bool_decide_eq_true.
  pose proof (orderedSet_Forall isToken [] _ (classList_tokens a)) as Hset.
  case_bool_decide as Hin; rewrite classList_written; auto.
  - apply elem_of_app. right. by left.
  - apply Forall_app. split; [done |]. by constructor.
Qed.

Lemma contains_add_other (token other : string) (n : Node) :
  isToken token → other ≠ token →
  ClassList.contains other (Dom.classListAdd token n) = ClassList.contains other n.
Proof.
  intros Htoken Hne. destruct n as [t a cs |]; [| done].
  unfold ClassList.contains. cbn [Dom.classListAdd Dom.matches].
  unfold Dom.byClass. apply bool_decide_ext.
  pose proof (orderedSet_Forall isToken [] _ (classList_tokens a)) as Hset.
  case_bool_decide as Hin; rewrite classList_written; auto.
  - rewrite orderedSet_elem_of. split; [tauto |]. intros H. split; [done |].
    apply not_elem_of_nil.
  - rewrite elem_of_app, orderedSet_elem_of, list_elem_of_singleton.
    split; [tauto |]. intros H. left. split; [done | apply not_elem_of_nil].
  - apply Forall_app. split; [done |]. by constructor.
Qed.

(** [remove] then [contains]. *)
Lemma contains_remove (token : string) (n : Node) :
  ClassList.contains token (ClassList.remove token n) = false.
Proof.
  destruct n as [t a cs |]; [| done].
  unfold ClassList.contains, ClassList.remove.
  set (set := filter (λ x, x ≠ token) (Dom.orderedSet [] (Dom.classList a))).
  assert (Forall isToken set) as Hset.
  { apply Forall_forall. intros x Hx. apply list_elem_of_filter in Hx as [_ Hx].
    apply orderedSet_elem_of in Hx as [Hx _].
    by eapply Forall_forall in Hx; [| apply classList_tokens]. }
  assert (token ∉ set) as Hnot by (by intros [? _]%list_elem_of_filter).
  destruct (Dom.attribute "class" a) as [v |] eqn:Hattr.
  - cbn [Dom.matches]. unfold Dom.byClass. apply bool_decide_eq_false.
    by rewrite classList_written.
  - destruct set as [| x set'] eqn:Hs.
    + cbn [Dom.matches]. unfold Dom.byClass, Dom.classList. rewrite Hattr.
      apply bool_decide_eq_false. cbn. apply not_elem_of_nil.
    + cbn [Dom.matches]. unfold Dom.byClass. apply bool_decide_eq_false.
      by rewrite classList_written.
Qed.

Lemma contains_remove_other (token other : string) (n : Node) :
  other ≠ token →
  ClassList.contains other (ClassList.remove token n) = ClassList.contains other n.
Proof.
  intros Hne. destruct n as [t a cs |]; [| done].
  unfold ClassList.contains, ClassList.remove.
  set (set := filter (λ x, x ≠ token) (Dom.orderedSet [] (Dom.classList a))).
  assert (Forall isToken set) as Hset.
  { apply Forall_forall. intros x Hx. apply list_elem_of_filter in Hx as [_ Hx].
    apply orderedSet_elem_of in Hx as [Hx _].
    by eapply Forall_forall in Hx; [| apply classList_tokens]. }
  assert (other ∈ set ↔ other ∈ Dom.classList a) as Hiff.
  { unfold set. rewrite list_elem_of_filter, orderedSet_elem_of.
    split; [tauto |]. intros H. repeat split; auto. apply not_elem_of_nil. }
  destruct (Dom.attribute "class" a) as [v |] eqn:Hattr.
  - cbn [Dom.matches]. unfold Dom.byClass. apply bool_decide_ext.
    by rewrite classList_written.
  - destruct set as [| x set'] eqn:Hs; [done |].
    cbn [Dom.matches]. unfold Dom.byClass. apply bool_decide_ext.
    by rewrite classList_written.
Qed.

(** [toggle] flips [contains]. *)
Lemma contains_toggle (token : string) (t : string) (a : list (string * string))
    (cs : list Node) :
  isToken token →
  ClassList.contains token (ClassList.toggle token (Element t a cs)) =
    negb (ClassList.contains token (Element t a cs)).
Proof.
  intros Htoken. unfold ClassList.toggle.
  destruct (ClassList.contains token (Element t a cs)) eqn:Hc.
  - apply contains_remove.
  - by apply contains_add.
Qed.

(** ** The base path *)

Lemma includes_cons (c : ascii) (s : string) :
  Str.includes "/" (String c s) = false → c ≠ "/"%char ∧ Str.includes "/" s = false.
Proof.
  cbn [Str.includes String.prefix]. destruct (ascii_dec "/" c) as [<- | Hne].
  - by destruct s.
  - intros H. split; [by intros -> | done].
Qed.

Lemma split_segment (seg rest : string) :
  Str.includes "/" seg = false →
  rest = EmptyString ∨ String.prefix "/" rest = true →
  ∃ more, Str.split "/" (seg +:+ rest) = seg :: more.
Proof.
  intros Hseg Hrest. induction seg as [| c seg IH].
  - change (EmptyString +:+ rest) with rest. destruct Hrest as [-> | Hrest]; [by eexists |].
    destruct rest as [| c rest]; [done |]. cbn [String.prefix] in Hrest.
    destruct (ascii_dec "/" c) as [<- | Hne]; [| discriminate Hrest]. cbn. by eexists.
  - apply includes_cons in Hseg as [Hc Hseg]. destruct (IH Hseg) as [more Hmore].
    change (String c seg +:+ rest) with (String c (seg +:+ rest)). cbn [Str.split].
    rewrite Hmore. apply Ascii.eqb_neq in Hc as ->. by eexists.
Qed.

(** X1. The base path is the first segment of the path, with its slash:
    for the path of a page below a repository folder, the folder; for a
    page at the root, the name of the page itself; for [/], the slash. *)
Theorem getBasePath_first_segment (seg rest : string) :
  Str.includes "/" seg = false →
  rest = EmptyString ∨ String.prefix "/" rest = true →
  getBasePath ("/" +:+ seg +:+ rest) = "/" +:+ seg.
Proof.
  intros Hseg Hrest. unfold getBasePath.
  change ("/" +:+ seg +:+ rest) with (String "/" (seg +:+ rest)). cbn [Str.split].
  change (Ascii.eqb "/" "/") with true. cbn iota.
  by destruct (split_segment seg rest Hseg Hrest) as [more ->].
Qed.

Lemma getBasePath_first_segment_witness :
  getBasePath "/telas2/app/dashboard.html" = "/telas2" ∧
  getBasePath "/index.html" = "/index.html" ∧
  getBasePath "/" = "/".
Proof.
  split; [| split].
  - apply (getBasePath_first_segment "telas2" "/app/dashboard.html");
      [reflexivity | right; reflexivity].
  - apply (getBasePath_first_segment "index.html" EmptyString); [reflexivity | by left].
  - apply (getBasePath_first_segment EmptyString EmptyString); [reflexivity | by left].
Defined.

(** ** The table of pages *)

(** Every URL of the table is a file of the administrative or of the
    application folder below the base path. *)
Lemma pageMap_lookup (basePath name url : string) :
  pageMap basePath !! name = Some url →
  ∃ file, url = basePath +:+ file ∧
          (String.prefix "/admin/" file = true ∨ String.prefix "/app/" file = true).
Proof.
  intros H. apply elem_of_list_to_map_2 in H.
  repeat (apply elem_of_cons in H as [[= -> ->] | H]; [eexists; split; [done |]; by auto |]).
  by apply elem_of_nil in H.
Qed.

Lemma append_nonempty (a b : string) : b ≠ EmptyString → a +:+ b ≠ EmptyString.
Proof. intros Hb. destruct a; [done |]. discriminate. Qed.

Lemma getPageUrl_Own (path name url : string) :
  getPageUrl path name = Own url →
  ∃ file, url = getBasePath path +:+ file ∧
          (String.prefix "/admin/" file = true ∨ String.prefix "/app/" file = true).
Proof.
  unfold getPageUrl, getProperty.
  destruct (pageMap _ !! _) as [u |] eqn:Hu.
  - intros [= <-]. by apply pageMap_lookup in Hu.
  - by case_bool_decide.
Qed.

Lemma getPageUrl_Own_truthy (path name url : string) :
  getPageUrl path name = Own url → truthyValue (Own url) = true.
Proof.
  intros (file & -> & Hfile)%getPageUrl_Own. apply truthy_Some, append_nonempty.
  intros ->. by destruct Hfile.
Qed.

(** X2. A URL that [getPageUrl] gives from its table is a file of the
    administrative or of the application folder below the base path of
    the page; it is never empty, so [navigateToPage] never takes a page
    of the table for a missing one. *)
Theorem getPageUrl_below_base (path name url : string) :
  getPageUrl path name = Own url →
  (∃ file, url = getBasePath path +:+ file ∧
           (String.prefix "/admin/" file = true ∨ String.prefix "/app/" file = true)) ∧
  truthyValue (getPageUrl path name) = true.
Proof.
  intros H. split; [by apply (getPageUrl_Own path name) |].
  rewrite H. by apply (getPageUrl_Own_truthy path name).
Qed.

Lemma getPageUrl_below_base_witness :
  (∃ file, "/telas2/app/vereadores.html" = getBasePath "/telas2/admin/partidos.html" +:+ file ∧
           (String.prefix "/admin/" file = true ∨ String.prefix "/app/" file = true)) ∧
  truthyValue (getPageUrl "/telas2/admin/partidos.html" "vereadores") = true.
Proof.
  apply (getPageUrl_below_base "/telas2/admin/partidos.html" "vereadores"). reflexivity.
Defined.

Lemma append_inj_r (a b c : string) : a +:+ b = a +:+ c → b = c.
Proof.
  induction a as [| x a IH]; [done |].
  change (String x (a +:+ b) = String x (a +:+ c) → b = c). intros [= H]. by apply IH.
Qed.

(** X3. On an administrative page no page name leads to the dashboard of
    the application: [dashboard] is read as [dashboard_admin], and no
    other entry of the table has that URL. *)
Theorem getPageUrl_admin_dashboard (path name : string) :
  Str.includes "/admin/" path = true →
  getPageUrl path name ≠ Own (getBasePath path +:+ "/app/dashboard.html") ∧
  getPageUrl path "dashboard" = getPageUrl path "dashboard_admin".
Proof.
  intros Hadmin. split.
  - unfold getPageUrl, isAdminContext, getProperty. rewrite Hadmin. cbn [andb].
    destruct (String.eqb_spec name "dashboard") as [-> | Hne].
    + generalize (getBasePath path). intros b. vm_compute.
      intros [= H]. revert H. change (b +:+ "/admin/dashboard_admin.html" ≠ b +:+ "/app/dashboard.html").
      by intros ?%append_inj_r.
    + destruct (pageMap _ !! name) as [u |] eqn:Hu; [| by case_bool_decide].
      intros [= ->]. apply elem_of_list_to_map_2 in Hu.
      repeat (apply elem_of_cons in Hu as [[Hname Hurl]%pair_equal_spec | Hu];
              [first [ by apply append_inj_r in Hurl | done ] |]).
      by apply elem_of_nil in Hu.
  - rewrite getPageUrl_dashboard_admin by done.
    unfold getPageUrl, isAdminContext. rewrite Hadmin.
    generalize (getBasePath path). intros b. reflexivity.
Qed.

Lemma getPageUrl_admin_dashboard_witness :
  getPageUrl "/telas2/admin/partidos.html" "dashboard" ≠
    Own (getBasePath "/telas2/admin/partidos.html" +:+ "/app/dashboard.html") ∧
  getPageUrl "/telas2/admin/partidos.html" "dashboard" =
    getPageUrl "/telas2/admin/partidos.html" "dashboard_admin".
Proof.
  apply (getPageUrl_admin_dashboard "/telas2/admin/partidos.html" "dashboard"). reflexivity.
Defined.

(** ** Navigation to a page of the table *)

Lemma token_transitioning : isToken "transitioning".
Proof. by split. Qed.

Lemma navigateToPage_run (pg : Page) (name : string) (v : PropertyValue) :
  getPageUrl (pathname pg) name = v → truthyValue v = true →
  navigateToPage name pg =
    (Normal (),
     match Dom.first (Dom.byId "mainContent") (document pg) with
     | Some el =>
         withTimers (timers pg ++ [(200%nat, v)])
           (withDocument
              (Dom.updateAt el (Dom.classListAdd "transitioning") (document pg)) pg)
     | None => withHref v pg
     end).
Proof.
  intros Hurl Htruthy. unfold navigateToPage. destruct pg as [path d ls h u c r l t].
  run. cbn [pathname] in Hurl. rewrite Hurl, Htruthy. run.
  by destruct (Dom.first _ d).
Qed.

(** X4. For a page of the table [navigateToPage] logs no warning.  Where
    the document has the [mainContent] element, the element gets the class
    [transitioning], the location is not assigned yet, and the URL of the
    table is what will be assigned after 200 ms; where it has none, the
    URL is assigned at once and the document stays as it is. *)
Theorem navigateToPage_known (pg : Page) (name url : string) :
  getPageUrl (pathname pg) name = Own url →
  let pg' := after (navigateToPage name) pg in
  outcome (navigateToPage name) pg = Normal () ∧
  console pg' = console pg ∧
  match Dom.first (Dom.byId "mainContent") (document pg) with
  | Some el =>
      hasClass "transitioning" el pg' = true ∧
      timers pg' = timers pg ++ [(200%nat, Own url)] ∧
      href pg' = href pg
  | None =>
      href pg' = Some (Own url) ∧ timers pg' = timers pg ∧ document pg' = document pg
  end.
Proof.
  intros Hurl. cbn zeta. unfold outcome, after.
  rewrite (navigateToPage_run pg name (Own url) Hurl (getPageUrl_Own_truthy _ _ _ Hurl)).
  cbn [fst snd]. split; [done |].
  destruct (Dom.first _ (document pg)) as [el |] eqn:Hel; [| by destruct pg].
  split; [by destruct pg |]. split; [| by destruct pg].
  destruct (first_nodeAt _ _ _ Hel) as (t & a & cs & Hnode & _).
  unfold hasClass. cbn [document withTimers withDocument].
  rewrite (nodeAt_updateAt _ _ _ _ Hnode). cbn [from_option].
  apply contains_add, token_transitioning.
Qed.

Lemma navigateToPage_known_witness :
  let pg := freshPage "/telas2/app/dashboard.html"
              (Element "html" [] [Element "main" [("id", "mainContent")] []]) ∅ in
  let pg' := after (navigateToPage "vereadores") pg in
  outcome (navigateToPage "vereadores") pg = Normal () ∧
  console pg' = [] ∧
  hasClass "transitioning" [0%nat] pg' = true ∧
  timers pg' = [(200%nat, Own "/telas2/app/vereadores.html")] ∧
  href pg' = None.
Proof.
  cbn zeta.
  refine (navigateToPage_known
            (freshPage "/telas2/app/dashboard.html"
               (Element "html" [] [Element "main" [("id", "mainContent")] []]) ∅)
            "vereadores" "/telas2/app/vereadores.html" _).
  reflexivity.
Defined.

(** ** The guard decides *)

Lemma accepted_not_rejected (pg : Page) : accepted pg → ¬ rejected pg.
Proof. intros (Hout & _) (_ & _ & e & He). congruence. Qed.

Lemma protectPage_passes (pg : Page) :
  if passes pg then accepted pg else rejected pg.
Proof.
  unfold passes.
  destruct (localStorage pg !! "authToken") as [[| c tok] |] eqn:Htok;
    try (cbn [Str.truthy andb]; apply protectPage_no_token; by rewrite Htok).
  cbn [Str.truthy andb].
  destruct (localStorage pg !! "userData") as [[| c' ud] |] eqn:Hud.
  - eapply protectPage_nothing_stored; [done .. | by rewrite Hud].
  - destruct (Json.parse (String c' ud)) as [v |] eqn:Hparse; cbn [from_option].
    + destruct (readable v) eqn:Hread.
      * by eapply protectPage_readable.
      * eapply protectPage_unreadable; [done .. | by rewrite Hparse].
    + eapply protectPage_unreadable; [done .. | by rewrite Hparse].
  - eapply protectPage_nothing_stored; [done .. | by rewrite Hud].
Qed.

(** X5. The guard always decides, and there are two outcomes only: it
    returns with the store and the location as they were, or it empties
    the store, sends the browser to the login page and throws.  It returns
    exactly when the store has a token that is not empty and a [userData]
    that is absent, empty, or parses to a value that is not [null] and
    whose [email] and [role] can be put in the log line. *)
Theorem protectPage_decides (pg : Page) :
  (accepted pg ↔ passes pg = true) ∧ (rejected pg ↔ passes pg = false).
Proof.
  pose proof (protectPage_passes pg) as H. destruct (passes pg).
  - pose proof (accepted_not_rejected pg H). split; split; try done.
  - split; split; try done. intros Ha. by apply accepted_not_rejected in Ha.
Qed.

(** ** More on fragments, layout and logout *)

Lemma withMarkup_keeps (parseHTML : string → string → list Node) (markup : string)
    (t : string) (a : list (string * string)) (cs : list Node) :
  ∃ cs', withMarkup parseHTML markup (Element t a cs) = Element t a cs'.
Proof. by eexists. Qed.

Lemma harmless_ret {A} (a : A) : harmless (mret a).
Proof. intros pg. split; [by exists a | done]. Qed.

Lemma harmless_bind {A B} (m : M A) (f : A → M B) :
  harmless m → (∀ a, harmless (f a)) → harmless (m ≫= f).
Proof.
  intros Hm Hf pg. specialize (Hm pg). unfold outcome, after, mbind, M_bind in *.
  destruct (m pg) as [[a' | e] pg']; cbn [fst snd] in *.
  - destruct Hm as (_ & H1 & H2 & H3 & H4 & H5). specialize (Hf a' pg').
    unfold outcome, after in Hf. destruct Hf as (Hb & G1 & G2 & G3 & G4 & G5).
    split; [done |]. by rewrite G1, G2, G3, G4, G5.
  - by destruct Hm as ([a Ha] & _).
Qed.

Lemma harmless_reads {A} (f : Page → A) : harmless (reads f).
Proof. intros pg. split; [by eexists | done]. Qed.

Lemma harmless_modify (f : Page → Page) :
  (∀ pg, localStorage (f pg) = localStorage pg ∧ href (f pg) = href pg ∧
         currentUser (f pg) = currentUser pg ∧ timers (f pg) = timers pg ∧
         pathname (f pg) = pathname pg) →
  harmless (modify f).
Proof. intros Hf pg. split; [by exists () | apply Hf]. Qed.

Lemma harmless_forEach {A} (l : list A) (f : A → M unit) :
  (∀ x, harmless (f x)) → harmless (forEach l f).
Proof.
  intros Hf. induction l as [| x l IH]; cbn; [apply harmless_ret |].
  apply harmless_bind; auto.
Qed.

Ltac harmless_steps :=
  repeat first
    [ apply harmless_ret
    | apply harmless_reads
    | apply harmless_modify; by intros []
    | apply harmless_forEach; intros ?
    | apply harmless_bind; [| intros ?]
    | match goal with
      | |- harmless (match ?x with _ => _ end) => destruct x
      end ].

Lemma setupDynamicContent_harmless (pageConfig : option PageConfig) :
  harmless (setupDynamicContent pageConfig).
Proof.
  unfold setupDynamicContent, getElementById, querySelector, updateElement. harmless_steps.
Qed.

Lemma autoFix_harmless : harmless autoFixFormSectionLayout.
Proof.
  unfold autoFixFormSectionLayout, querySelector, updateElement, consoleWrite.
  harmless_steps.
Qed.

Lemma setupEventListeners_harmless : harmless setupEventListeners.
Proof.
  unfold setupEventListeners, initializeFadeInObserver, getElementById, querySelector,
    querySelectorAll, addListener.
  harmless_steps.
Qed.

Section MoreNetworkProperties.

Variable parseHTML : string → string → list Node.
Variable server : list Request → FetchOutcome.

(** X6. Where the target exists and the server answers with the fragment,
    [loadComponent] makes its one request, logs nothing, and puts what the
    markup parses to in place of the content of the target: the target
    keeps its tag and its attributes, and is still the element found by
    its identifier. *)
Theorem loadComponent_success (componentPath targetElementId : string) (pg : Page)
    (el : Path) (text : string) :
  Dom.first (Dom.byId targetElementId) (document pg) = Some el →
  server (requests pg ++ [get componentPath]) =
    Responded {| ok := true; body := BodyText text |} →
  let load := loadComponent parseHTML server componentPath targetElementId in
  outcome load pg = Normal () ∧
  console (after load pg) = console pg ∧
  requests (after load pg) = requests pg ++ [get componentPath] ∧
  document (after load pg) =
    Dom.updateAt el (withMarkup parseHTML text) (document pg) ∧
  (∃ t a cs, Dom.nodeAt el (document pg) = Some (Element t a cs) ∧
             Dom.nodeAt el (document (after load pg)) =
               Some (Element t a (parseHTML t text))) ∧
  Dom.first (Dom.byId targetElementId) (document (after load pg)) = Some el.
Proof.
  intros Hsome Hok. cbn zeta. unfold outcome, after.
  rewrite (loadComponent_present _ _ _ _ _ el Hsome). cbn zeta. rewrite Hok.
  cbn [fst snd]. destruct pg as [path d ls h u c r l t].
  cbn [document console requests withDocument withRequests] in *.
  repeat (split; [done |]). split.
  - destruct (first_nodeAt _ _ _ Hsome) as (t' & a & cs & Hnode & _).
    exists t', a, cs. split; [done |]. by rewrite (nodeAt_updateAt _ _ _ _ Hnode).
  - apply first_updateAt; [apply withMarkup_keeps | done].
Qed.

Lemma loadComponent_harmless (componentPath targetElementId : string) :
  harmless (loadComponent parseHTML server componentPath targetElementId).
Proof.
  intros pg. unfold outcome, after.
  destruct (Dom.first (Dom.byId targetElementId) (document pg)) as [el |] eqn:Hel.
  - rewrite (loadComponent_present _ _ _ _ _ el Hel). cbn zeta.
    destruct (server _) as [reason | [[] [text | reason]]];
      (split; [by eexists | by destruct pg]).
  - rewrite loadComponent_absent by done. split; [by eexists | done].
Qed.

(** X7. Whatever the server answers and whatever the page and its
    configuration are, [initLayout] returns normally: a fragment that
    cannot be loaded stops nothing.  It leaves the store, the location,
    [window.currentUser] and the pending navigations as they were. *)
Theorem initLayout_harmless (pageConfig : option PageConfig) :
  harmless (initLayout parseHTML server pageConfig).
Proof.
  unfold initLayout.
  apply harmless_bind; [apply harmless_reads | intros path].
  apply harmless_bind; [| intros _].
  { repeat match goal with
           | |- harmless (if ?b then _ else _) => destruct b
           end;
      try apply harmless_ret;
      (apply harmless_bind; [| intros _]); apply loadComponent_harmless. }
  apply harmless_bind; [apply setupDynamicContent_harmless | intros _].
  apply harmless_bind; [apply autoFix_harmless | intros _].
  apply setupEventListeners_harmless.
Qed.

Lemma logout_leaves (pg : Page) :
  let pg' := after (logout server) pg in
  localStorage pg' = delete "userData" (delete "authToken" (localStorage pg)) ∧
  pathname pg' = pathname pg ∧
  document pg' = document pg ∧ currentUser pg' = currentUser pg ∧
  listeners pg' = listeners pg ∧ timers pg' = timers pg.
Proof.
  cbn zeta. unfold after, logout, fetch.
  destruct pg as [path d ls h u c r l t]. run.
  destruct (ls !! "authToken") as [[| c0 token'] |]; cbn [Str.truthy]; run;
    try (destruct (server _) as [reason | [[] b]]; run); done.
Qed.

(** X8. After [logout], whatever the server answered, the guard rejects
    the page: [protectPage] finds no token, empties what is left of the
    store, sends the browser to the login page and throws. *)
Theorem logout_then_protectPage (pg : Page) :
  rejected (after (logout server) pg) ∧
  localStorage (after protectPage (after (logout server) pg)) = ∅ ∧
  href (after protectPage (after (logout server) pg)) =
    Some (Own (getBasePath (pathname pg) +:+ "/app/login.html")).
Proof.
  destruct (logout_leaves pg) as (Hstore & Hpath & _). cbn zeta in *.
  assert (rejected (after (logout server) pg)) as Hrej.
  { apply protectPage_no_token. by rewrite Hstore, lookup_delete_ne, lookup_delete_eq. }
  split; [done |]. destruct Hrej as (Hempty & Hhref & _). by rewrite <- Hpath.
Qed.

(** X9. [logout] touches the store, the location, the console and the
    requests, and nothing else: the document, the listeners and the pending
    navigations are as they were, and so is [window.currentUser], which
    keeps the user record that [protectPage] put there. *)
Theorem logout_keeps_currentUser (pg : Page) :
  let pg' := after (logout server) pg in
  currentUser pg' = currentUser pg ∧ document pg' = document pg ∧
  listeners pg' = listeners pg ∧ timers pg' = timers pg.
Proof. cbn zeta. by destruct (logout_leaves pg) as (_ & _ & -> & -> & -> & ->). Qed.

End MoreNetworkProperties.

Lemma loadComponent_success_witness :
  let pg := freshPage "/telas2/app/dashboard.html" (legacyDocument []) ∅ in
  let path := "/telas2/components/app_sidebar.html" in
  let load := loadComponent asText (serving "<nav>menu</nav>") path "sidebar-placeholder" in
  outcome load pg = Normal () ∧
  console (after load pg) = [] ∧
  requests (after load pg) = [get path] ∧
  document (after load pg) =
    Dom.updateAt [1; 0]%nat (withMarkup asText "<nav>menu</nav>") (legacyDocument []) ∧
  (∃ t a cs, Dom.nodeAt [1; 0]%nat (legacyDocument []) = Some (Element t a cs) ∧
             Dom.nodeAt [1; 0]%nat (document (after load pg)) =
               Some (Element t a (asText t "<nav>menu</nav>"))) ∧
  Dom.first (Dom.byId "sidebar-placeholder") (document (after load pg)) = Some [1; 0]%nat.
Proof.
  cbn zeta.
  refine (loadComponent_success asText (serving "<nav>menu</nav>") _ "sidebar-placeholder"
            _ [1; 0]%nat "<nav>menu</nav>" _ _).
  - reflexivity.
  - reflexivity.
Defined.

(** ** Updates of one element *)

Lemma nodeAt_cons (i : nat) (π : Path) (n : Node) :
  Dom.nodeAt (i :: π) n = Dom.children n !! i ≫= Dom.nodeAt π.
Proof. by destruct n. Qed.

(** The node at a place above the update, or at it. *)
Lemma nodeAt_updateAt_below (el rest : Path) (f : Node → Node) (n : Node) :
  Dom.nodeAt el (Dom.updateAt (el ++ rest) f n) = Dom.updateAt rest f <$> Dom.nodeAt el n.
Proof.
  revert n. induction el as [| i el IH]; intros n; [done |].
  destruct n as [t a cs | d]; [| done]. cbn. rewrite list_lookup_alter_eq.
  destruct (cs !! i) as [c |]; [| done]. cbn. apply IH.
Qed.

Lemma nodeAt_updateAt_same (el : Path) (f : Node → Node) (n : Node) :
  Dom.nodeAt el (Dom.updateAt el f n) = f <$> Dom.nodeAt el n.
Proof. rewrite <- (app_nil_r el) at 2. apply nodeAt_updateAt_below. Qed.

(** The node at a place that is not above the update. *)
Lemma nodeAt_updateAt_apart (π el : Path) (f : Node → Node) (n : Node) :
  shallow f → ¬ el `prefix_of` π →
  Dom.nodeAt el (Dom.updateAt π f n) = Dom.nodeAt el n.
Proof.
  intros Hf. revert el n. induction π as [| i π IH]; intros el n Hel.
  - destruct el as [| j el]; [by destruct Hel |]. cbn [Dom.updateAt].
    rewrite !nodeAt_cons. by destruct (Hf n) as [-> _].
  - destruct n as [t a cs | d]; [| done].
    destruct el as [| j el]; [destruct Hel; apply prefix_nil |]. cbn.
    destruct (decide (i = j)) as [<- | Hne].
    + rewrite list_lookup_alter_eq. destruct (cs !! i) as [c |]; [| done]. cbn.
      apply IH. intros Hp. apply Hel. by apply prefix_cons.
    + by rewrite list_lookup_alter_ne.
Qed.

Lemma updateAt_head (i : nat) (π : Path) (f : Node → Node) (n : Node) (token : string) :
  ClassList.contains token (Dom.updateAt (i :: π) f n) = ClassList.contains token n ∧
  isElement (Dom.updateAt (i :: π) f n) = isElement n.
Proof. by destruct n. Qed.

(** An update elsewhere changes no class of the element at [el]. *)
Lemma hasClass_updateAt_other (token : string) (π el : Path) (f : Node → Node)
    (pg : Page) :
  shallow f → π ≠ el →
  hasClass token el (withDocument (Dom.updateAt π f (document pg)) pg) =
    hasClass token el pg.
Proof.
  intros Hf Hne. unfold hasClass. cbn [document withDocument].
  destruct (decide (el `prefix_of` π)) as [[rest ->] | Hp].
  - rewrite nodeAt_updateAt_below. destruct (Dom.nodeAt el (document pg)) as [m |]; [| done].
    destruct rest as [| i rest]; [by rewrite app_nil_r in Hne |]. cbn.
    apply updateAt_head.
  - by rewrite nodeAt_updateAt_apart.
Qed.

(** An update leaves an element where there was one. *)
Lemma isElement_updateAt (π el : Path) (f : Node → Node) (n : Node) :
  shallow f →
  isElement <$> Dom.nodeAt el (Dom.updateAt π f n) = isElement <$> Dom.nodeAt el n.
Proof.
  intros Hf. destruct (decide (el `prefix_of` π)) as [[rest ->] | Hp].
  - rewrite nodeAt_updateAt_below. destruct (Dom.nodeAt el n) as [m |]; [| done]. cbn.
    f_equal. destruct rest as [| i rest]; [apply Hf | by apply (updateAt_head _ _ _ _ EmptyString)].
  - by rewrite nodeAt_updateAt_apart.
Qed.

Lemma shallow_add (token : string) : shallow (Dom.classListAdd token).
Proof. by intros [t a cs | d]. Qed.

Lemma shallow_remove (token : string) : shallow (ClassList.remove token).
Proof.
  intros [t a cs | d]; [| done]. unfold ClassList.remove.
  by destruct (Dom.attribute "class" a), (filter _ _).
Qed.

Lemma shallow_toggle (token : string) : shallow (ClassList.toggle token).
Proof.
  intros n. unfold ClassList.toggle.
  destruct (ClassList.contains token n); [apply shallow_remove | apply shallow_add].
Qed.

(** Elements found by different identifiers are different elements. *)
Lemma byId_apart (id1 id2 : string) (n : Node) (π1 π2 : Path) :
  id1 ≠ id2 →
  Dom.first (Dom.byId id1) n = Some π1 → Dom.first (Dom.byId id2) n = Some π2 → π1 ≠ π2.
Proof.
  intros Hne H1 H2 <-.
  destruct (first_nodeAt _ _ _ H1) as (t & a & cs & Hnode & Hq1).
  destruct (first_nodeAt _ _ _ H2) as (t' & a' & cs' & Hnode' & Hq2).
  rewrite Hnode in Hnode'. injection Hnode' as <- <- <-.
  unfold Dom.byId in Hq1, Hq2. destruct id1, id2; try done.
  apply bool_decide_eq_true in Hq1, Hq2. congruence.
Qed.

(** ** The profile menu *)

Lemma token_active : isToken "active".
Proof. by split. Qed.

Lemma toggle_flips (token : string) (el : Path) (pg : Page) :
  isToken token →
  isElement <$> Dom.nodeAt el (document pg) = Some true →
  hasClass token el (withDocument (Dom.updateAt el (ClassList.toggle token) (document pg)) pg) =
    negb (hasClass token el pg).
Proof.
  intros Htoken Hel. unfold hasClass. cbn [document withDocument].
  rewrite nodeAt_updateAt_same.
  destruct (Dom.nodeAt el (document pg)) as [[t a cs | d] |]; try done. cbn.
  by apply contains_toggle.
Qed.

Lemma remove_clears (token : string) (el : Path) (pg : Page) :
  hasClass token el (withDocument (Dom.updateAt el (ClassList.remove token) (document pg)) pg) =
    false.
Proof.
  unfold hasClass. cbn [document withDocument]. rewrite nodeAt_updateAt_same.
  destruct (Dom.nodeAt el (document pg)) as [m |]; [| done]. cbn. apply contains_remove.
Qed.

Lemma first_isElement (q : Dom.Selector) (n : Node) (π : Path) :
  Dom.first q n = Some π → isElement <$> Dom.nodeAt π n = Some true.
Proof. intros (t & a & cs & -> & _)%first_nodeAt. done. Qed.

Lemma onProfileClick_run (pg : Page) (profileBtn profileDropdown : Path) :
  onProfileClick profileBtn profileDropdown pg =
    let opened :=
      withDocument
        (Dom.updateAt profileDropdown (ClassList.toggle "active") (document pg)) pg in
    (Normal (),
     withDocument (Dom.updateAt profileBtn (ClassList.toggle "active") (document opened))
       opened).
Proof. by destruct pg. Qed.

(** X10. A click on the profile button opens the menu if it is closed and
    closes it if it is open: the class [active] is switched on the menu and
    on the button, each for itself, and nothing but the document changes. *)
Theorem onProfileClick_toggles (pg : Page) (profileBtn profileDropdown : Path) :
  Dom.first (Dom.byId "profileBtn") (document pg) = Some profileBtn →
  Dom.first (Dom.byId "profileDropdown") (document pg) = Some profileDropdown →
  let click := onProfileClick profileBtn profileDropdown in
  outcome click pg = Normal () ∧
  hasClass "active" profileDropdown (after click pg) =
    negb (hasClass "active" profileDropdown pg) ∧
  hasClass "active" profileBtn (after click pg) = negb (hasClass "active" profileBtn pg) ∧
  withDocument (document pg) (after click pg) = pg.
Proof.
  intros Hb Hd. cbn zeta.
  assert (profileBtn ≠ profileDropdown) as Hne
    by (by apply (byId_apart "profileBtn" "profileDropdown" (document pg))).
  apply first_isElement in Hb, Hd.
  unfold outcome, after. rewrite onProfileClick_run. cbn zeta. cbn [fst snd].
  set (opened := withDocument _ pg).
  split; [done |]. split; [| split].
  - rewrite hasClass_updateAt_other by (apply shallow_toggle || done).
    by apply toggle_flips; [apply token_active |].
  - rewrite toggle_flips; [| apply token_active |].
    + f_equal. apply hasClass_updateAt_other; [apply shallow_toggle | done].
    + unfold opened. cbn [document withDocument].
      by rewrite isElement_updateAt by apply shallow_toggle.
  - by destruct pg.
Qed.

Lemma onProfileClick_toggles_witness :
  let pg := freshPage "/telas2/app/dashboard.html"
              (profileDocument [profileButton] "menu") ∅ in
  let click := onProfileClick [0; 0]%nat [0; 1]%nat in
  outcome click pg = Normal () ∧
  hasClass "active" [0; 1]%nat (after click pg) = true ∧
  hasClass "active" [0; 0]%nat (after click pg) = true ∧
  withDocument (document pg) (after click pg) = pg.
Proof.
  cbn zeta.
  refine (onProfileClick_toggles
            (freshPage "/telas2/app/dashboard.html" (profileDocument [profileButton] "menu") ∅)
            [0; 0]%nat [0; 1]%nat _ _); reflexivity.
Defined.

Lemma onWindowClick_run (pg : Page) (profileDropdown : Path) (profileBtn : option Path) :
  onWindowClick (Some profileDropdown) profileBtn pg =
    if hasClass "active" profileDropdown pg then
      let closed :=
        withDocument
          (Dom.updateAt profileDropdown (ClassList.remove "active") (document pg)) pg in
      match profileBtn with
      | Some btn =>
          (Normal (),
           withDocument (Dom.updateAt btn (ClassList.remove "active") (document closed))
             closed)
      | None => (Throw TypeError, closed)
      end
    else (Normal (), pg).
Proof.
  unfold onWindowClick, hasClass. destruct pg as [path d ls h u c r l t]. run.
  destruct (from_option _ _ _); [| done]. by destruct profileBtn.
Qed.

(** X11. A click anywhere in the window closes the profile menu: where
    the menu is open, the class [active] is taken from the menu and from
    the button; where it is closed, or where the page has no menu, the
    click changes nothing, whether the button has the class or not. *)
Theorem onWindowClick_closes (pg : Page) (profileDropdown profileBtn : Path) :
  let click := onWindowClick (Some profileDropdown) (Some profileBtn) in
  outcome click pg = Normal () ∧
  (if hasClass "active" profileDropdown pg then
     hasClass "active" profileDropdown (after click pg) = false ∧
     hasClass "active" profileBtn (after click pg) = false ∧
     withDocument (document pg) (after click pg) = pg
   else after click pg = pg) ∧
  onWindowClick None (Some profileBtn) pg = (Normal (), pg).
Proof.
  cbn zeta. unfold outcome, after. rewrite onWindowClick_run.
  destruct (hasClass "active" profileDropdown pg) eqn:Hopen; [| done].
  cbn zeta. cbn [fst snd]. split; [done |]. split; [| done].
  split; [| split; [apply remove_clears | by destruct pg]].
  destruct (decide (profileBtn = profileDropdown)) as [-> | Hne]; [apply remove_clears |].
  rewrite hasClass_updateAt_other by (apply shallow_remove || done). apply remove_clears.
Qed.

(** X12. The listener on the window is added whether the page has a
    profile button or not, and it reads the button without a test: where
    the menu is open and the page has no button, the click closes the menu
    and then throws a [TypeError]. *)
Theorem onWindowClick_without_button (pg : Page) (profileDropdown : Path) :
  hasClass "active" profileDropdown pg = true →
  let click := onWindowClick (Some profileDropdown) None in
  outcome click pg = Throw TypeError ∧
  hasClass "active" profileDropdown (after click pg) = false.
Proof.
  intros Hopen. cbn zeta. unfold outcome, after. rewrite onWindowClick_run, Hopen.
  cbn zeta. cbn [fst snd]. split; [done | apply remove_clears].
Qed.

Lemma onWindowClick_without_button_witness :
  let pg := freshPage "/telas2/app/dashboard.html" (profileDocument [] "menu active") ∅ in
  Dom.first (Dom.byId "profileBtn") (document pg) = None ∧
  Dom.first (Dom.byId "profileDropdown") (document pg) = Some [0; 0]%nat ∧
  outcome (onWindowClick (Some [0; 0]%nat) None) pg = Throw TypeError ∧
  hasClass "active" [0; 0]%nat (after (onWindowClick (Some [0; 0]%nat) None) pg) = false.
Proof.
  cbn zeta. split; [reflexivity |]. split; [reflexivity |].
  refine (onWindowClick_without_button
            (freshPage "/telas2/app/dashboard.html" (profileDocument [] "menu active") ∅)
            [0; 0]%nat _).
  reflexivity.
Defined.

(** ** Listeners *)

Lemma forEach_listeners {A} (l : list A) (f : A → M unit) (g : A → Listener) (pg : Page) :
  (∀ x pg, f x pg = (Normal (), withListeners (listeners pg ++ [g x]) pg)) →
  forEach l f pg = (Normal (), withListeners (listeners pg ++ (g <$> l)) pg).
Proof.
  intros Hf. revert pg. induction l as [| x l IH]; intros pg; cbn.
  - rewrite app_nil_r. by destruct pg.
  - unfold mbind, M_bind. rewrite Hf, IH. destruct pg. cbn. by rewrite <- app_assoc.
Qed.

Ltac steps :=
  cbv beta iota zeta delta
    [ mbind M_bind mret M_ret reads modify
      querySelector querySelectorAll getElementById updateElement addListener
      withDocument withListeners
      pathname document localStorage href currentUser console requests listeners timers
      fst snd ].

Lemma setupEventListeners_run (pg : Page) :
  setupEventListeners pg = (Normal (), withListeners (registered pg) pg).
Proof.
  unfold setupEventListeners, registered, initializeFadeInObserver.
  destruct pg as [path doc ls h u c r l t]. steps.
  destruct (Dom.first (Dom.byId "profileBtn") doc) as [b |],
    (Dom.first (Dom.byId "profileDropdown") doc) as [d |]; steps.
  all: generalize (Dom.all Dom.navLink doc) as links; intros links.
  all: rewrite (forEach_listeners links _ Navigate) by reflexivity; steps.
  all: generalize (Dom.all (Dom.byClass "fade-in") doc) as fades; intros fades.
  all: destruct fades as [| f fades']; steps.
  all: rewrite ?(forEach_listeners (f :: fades') _ FadeIn) by reflexivity; steps.
  all: rewrite ?app_nil_r, <- ?app_assoc; reflexivity.
Qed.

Lemma navigations_app (l k : list Listener) :
  navigations (l ++ k) = navigations l ++ navigations k.
Proof. apply omap_app. Qed.

Lemma navigations_Navigate (links : list Path) : navigations (Navigate <$> links) = links.
Proof. unfold navigations. induction links as [| x links IH]; cbn; [done | by f_equal]. Qed.

Lemma navigations_FadeIn (els : list Path) : navigations (FadeIn <$> els) = [].
Proof. unfold navigations. induction els as [| x els IH]; cbn; done. Qed.

Lemma under_self (links : list Path) (link : Path) : link ∈ links → under links link = true.
Proof.
  intros Hin. unfold under. apply existsb_exists. exists link.
  split; [by apply list_elem_of_In | by apply bool_decide_eq_true].
Qed.

Lemma navigations_profile (l : list Listener) (profileBtn profileDropdown : option Path) :
  navigations
    ((l ++
      match profileBtn, profileDropdown with
      | Some b, Some d => [ProfileToggle b (At d)]
      | _, _ => []
      end) ++
     [CloseProfile (ref profileDropdown) (ref profileBtn)]) =
    navigations l.
Proof.
  rewrite !navigations_app. destruct profileBtn, profileDropdown; cbn; by rewrite ?app_nil_r.
Qed.

(** The listeners on the links that were replaced are gone. *)
Lemma navigations_afterReplace (links : list Path) (l : list Listener) :
  (∀ link, link ∈ navigations l → link ∈ links) →
  navigations (omap (afterReplace links) l) = [].
Proof.
  induction l as [| x l IH]; intros Hl; [done |].
  destruct x as [b d | d b | link | el]; cbn.
  - destruct (under links b); cbn; apply IH, Hl.
  - apply IH, Hl.
  - rewrite under_self by (apply Hl; by left). apply IH. intros k Hk. apply Hl. by right.
  - destruct (under links el); cbn; apply IH, Hl.
Qed.

(** X13. After [setupEventListeners] every link [a[data-page]] of the
    document has one click listener for navigation, and no other element
    has one: a link that had a listener from an earlier call was replaced
    by its clone, so calling it again does not double the listeners.  The
    document keeps its shape. *)
Theorem setupEventListeners_rebinds (pg : Page) :
  (∀ link, link ∈ navigations (listeners pg) → link ∈ Dom.all Dom.navLink (document pg)) →
  let pg' := after setupEventListeners pg in
  navigations (listeners pg') = Dom.all Dom.navLink (document pg) ∧
  document pg' = document pg ∧
  navigations (listeners (after setupEventListeners pg')) = navigations (listeners pg').
Proof.
  intros Hbound. cbn zeta. unfold after. rewrite !setupEventListeners_run. cbn [snd].
  assert (∀ pg, (∀ link, link ∈ navigations (listeners pg) →
                         link ∈ Dom.all Dom.navLink (document pg)) →
                navigations (registered pg) = Dom.all Dom.navLink (document pg)) as Hreg.
  { intros pg0 H0. unfold registered.
    rewrite !navigations_app, navigations_Navigate, navigations_FadeIn, app_nil_r.
    rewrite navigations_afterReplace; [done |]. intros link.
    rewrite navigations_profile. apply H0. }
  assert (listeners (withListeners (registered pg) pg) = registered pg) as Hl
    by (by destruct pg).
  assert (document (withListeners (registered pg) pg) = document pg) as Hd
    by (by destruct pg).
  rewrite Hl. split; [by apply Hreg |]. split; [done |].
  assert (∀ l pg0, listeners (withListeners l pg0) = l) as Hl' by (by intros ? []).
  rewrite Hl', !Hreg; rewrite ?Hl, ?Hd; try done.
  intros link. by rewrite Hreg.
Qed.

Lemma windowListeners_app (l k : list Listener) :
  windowListeners (l ++ k) = windowListeners l ++ windowListeners k.
Proof. apply omap_app. Qed.

Lemma windowListeners_afterReplace (links : list Path) (l : list Listener) :
  length (windowListeners (omap (afterReplace links) l)) = length (windowListeners l).
Proof.
  unfold windowListeners. induction l as [| x l IH]; [done |].
  destruct x as [b d | d b | link | el]; cbn.
  - by destruct (under links b).
  - by rewrite IH.
  - by destruct (under links link).
  - by destruct (under links el).
Qed.

(** X14. Every call of [setupEventListeners] adds one more click listener
    to the window and takes none away: after a call there is one more of
    them than before, whatever the document is. *)
Theorem setupEventListeners_window (pg : Page) :
  length (windowListeners (listeners (after setupEventListeners pg))) =
    S (length (windowListeners (listeners pg))).
Proof.
  unfold after. rewrite setupEventListeners_run. cbn [snd].
  assert (listeners (withListeners (registered pg) pg) = registered pg) as ->
    by (by destruct pg).
  unfold registered. rewrite !windowListeners_app, !length_app.
  rewrite windowListeners_afterReplace, !windowListeners_app, !length_app.
  assert (∀ l, windowListeners (Navigate <$> l) = []) as ->
    by (intros l; induction l; [done | by cbn]).
  assert (∀ l, windowListeners (FadeIn <$> l) = []) as ->
    by (intros l; induction l; [done | by cbn]).
  generalize (Dom.first (Dom.byId "profileBtn") (document pg)) as profileBtn.
  generalize (Dom.first (Dom.byId "profileDropdown") (document pg)) as profileDropdown.
  intros [d |] [b |]; cbn; lia.
Qed.

Lemma setupEventListeners_rebinds_witness :
  let pg := withListeners [Navigate [0; 1; 0]%nat]
              (freshPage "/telas2/app/dashboard.html"
                 (profileDocument [profileButton] "menu") ∅) in
  let pg' := after setupEventListeners pg in
  navigations (listeners pg') = [[0; 1; 0]%nat] ∧
  document pg' = document pg ∧
  navigations (listeners (after setupEventListeners pg')) = navigations (listeners pg').
Proof.
  cbn zeta.
  refine (setupEventListeners_rebinds
            (withListeners [Navigate [0; 1; 0]%nat]
               (freshPage "/telas2/app/dashboard.html"
                  (profileDocument [profileButton] "menu") ∅)) _).
  intros link Hlink. vm_compute in Hlink. apply list_elem_of_singleton in Hlink as ->.
  vm_compute. by left.
Defined.

(** ** The toast after a login *)

Section ToastProperties.

Variable showToast : string → string → M unit.

Lemma onDOMContentLoaded_run (pg : Page) :
  onDOMContentLoaded showToast pg =
    if bool_decide (localStorage pg !! "showLoginSuccessToast" = Some "true") then
      match showToast "Login bem-sucedido!" "success" pg with
      | (Normal _, pg') =>
          (Normal (),
           withLocalStorage (delete "showLoginSuccessToast" (localStorage pg')) pg')
      | (Throw e, pg') => (Throw e, pg')
      end
    else (Normal (), pg).
Proof.
  unfold onDOMContentLoaded, getItem, reads, removeItem, modify.
  unfold mbind at 1, M_bind at 1. by case_bool_decide.
Qed.

(** X15. The toast is shown once: after a run of the listener that
    returned, a second run changes nothing and does not call [showToast],
    since the flag is gone from the store.  Where [showToast] throws, the
    listener throws with it before it has removed the flag, which is then
    in the store as [showToast] left it. *)
Theorem onDOMContentLoaded_once (pg : Page) :
  let listener := onDOMContentLoaded showToast in
  let shown := showToast "Login bem-sucedido!" "success" in
  match outcome listener pg with
  | Normal _ =>
      listener (after listener pg) = (Normal (), after listener pg) ∧
      localStorage (after listener pg) !! "showLoginSuccessToast" ≠ Some "true" ∧
      (localStorage pg !! "showLoginSuccessToast" ≠ Some "true" → after listener pg = pg)
  | Throw e =>
      localStorage pg !! "showLoginSuccessToast" = Some "true" ∧
      outcome shown pg = Throw e ∧ after listener pg = after shown pg
  end.
Proof.
  cbn zeta. unfold outcome, after. rewrite (onDOMContentLoaded_run pg).
  case_bool_decide as Hflag.
  - destruct (showToast _ _ pg) as [[[] | e] pg'] eqn:Hshown; cbn [fst snd]; [| done].
    assert (localStorage
              (withLocalStorage (delete "showLoginSuccessToast" (localStorage pg')) pg') !!
              "showLoginSuccessToast" = None) as Hgone
      by (destruct pg'; cbn; apply lookup_delete_eq).
    split; [| split; [by rewrite Hgone | done]].
    rewrite onDOMContentLoaded_run, Hgone. by rewrite bool_decide_eq_false_2.
  - cbn [fst snd]. split; [| done].
    rewrite onDOMContentLoaded_run. by rewrite bool_decide_eq_false_2.
Qed.

End ToastProperties.

(** ** Dynamic content *)

Lemma setupDynamicContent_run (pg : Page) (cfg : PageConfig) :
  setupDynamicContent (Some cfg) pg =
    (Normal (), withDocument (withNavActive cfg (document pg)) pg).
Proof.
  unfold setupDynamicContent, withNavActive, withIcon, withTitle, titleTarget.
  destruct pg as [path doc ls h u c r l t]. steps.
  destruct (Str.truthy (title cfg));
    [destruct (Dom.first (Dom.byId "header-title") doc) as [el |] |];
    (destruct (Dom.first (Dom.byId "header-icon") doc) as [ic |];
     [destruct (Str.truthy (icon cfg) && attached _ ic) |]);
    (destruct (Str.truthy (navActive cfg)); [destruct (Dom.first _ _) |]);
    reflexivity.
Qed.

Lemma shallow_setClassName (value : string) : shallow (Dom.setClassName value).
Proof. by intros [t a cs | d]. Qed.

Lemma children_updateAt_text (rest : Path) (f : Node → Node) (t : string)
    (a : list (string * string)) (text : string) :
  shallow f → f (TextNode text) = TextNode text →
  Dom.children (Dom.updateAt rest f (Element t a [TextNode text])) = [TextNode text].
Proof.
  intros Hf Htext. destruct rest as [| i rest]; [apply Hf |]. cbn.
  destruct i as [| i]; [| done]. cbn. f_equal. by destruct rest as [| j rest].
Qed.

(** X16. Where the configuration has a title and the document has the
    [header-title] element, the element holds the title as its one text
    after [setupDynamicContent], whatever the icon and the active item of
    the configuration are and wherever their elements stand. *)
Theorem setupDynamicContent_title (pg : Page) (cfg : PageConfig) (text : string)
    (headerTitle : Path) :
  title cfg = Some text → text ≠ EmptyString →
  Dom.first (Dom.byId "header-title") (document pg) = Some headerTitle →
  let pg' := after (setupDynamicContent (Some cfg)) pg in
  outcome (setupDynamicContent (Some cfg)) pg = Normal () ∧
  Dom.children <$> Dom.nodeAt headerTitle (document pg') = Some [TextNode text] ∧
  withDocument (document pg) pg' = pg.
Proof.
  intros Htitle Htext Hel. cbn zeta. unfold outcome, after.
  rewrite setupDynamicContent_run. cbn [fst snd].
  split; [done |]. split; [| by destruct pg].
  assert (document (withDocument (withNavActive cfg (document pg)) pg) =
            withNavActive cfg (document pg)) as -> by (by destruct pg).
  set (doc := document pg) in *.
  assert (titleTarget cfg doc = Some headerTitle) as Htarget.
  { unfold titleTarget. by rewrite Htitle, truthy_Some. }
  destruct (first_nodeAt _ _ _ Hel) as (t & a & cs & Hnode & _).
  assert (Dom.nodeAt headerTitle (withTitle cfg doc) = Some (Element t a [TextNode text]))
    as Htitled.
  { unfold withTitle. rewrite Htarget, Htitle. cbn [default from_option id].
    rewrite (nodeAt_updateAt _ _ _ _ Hnode). by destruct text. }
  assert (Dom.nodeAt headerTitle (withIcon cfg doc) = Some (Element t a [TextNode text]))
    as Hicon.
  { unfold withIcon. destruct (Dom.first (Dom.byId "header-icon") doc) as [ic |] eqn:Hic;
      [| done].
    destruct (Str.truthy (icon cfg) && attached _ ic) eqn:Hcond; [| done].
    rewrite nodeAt_updateAt_apart; [done | apply shallow_setClassName |].
    apply andb_true_iff in Hcond as [_ Hattached]. rewrite Htarget in Hattached.
    intros Hprefix. cbn in Hattached. rewrite bool_decide_eq_true_2 in Hattached by done.
    rewrite bool_decide_eq_false_2 in Hattached; [done |].
    by apply (byId_apart "header-title" "header-icon" doc). }
  unfold withNavActive. destruct (Str.truthy (navActive cfg)); [| by rewrite Hicon].
  destruct (Dom.first _ (withIcon cfg doc)) as [nv |]; [| by rewrite Hicon].
  destruct (decide (headerTitle `prefix_of` nv)) as [[rest ->] | Hapart].
  - rewrite nodeAt_updateAt_below, Hicon. cbn. f_equal.
    by apply children_updateAt_text; [apply shallow_add |].
  - rewrite nodeAt_updateAt_apart by (apply shallow_add || done). by rewrite Hicon.
Qed.

Lemma first_updateAt_matching (q : Dom.Selector) (f : Node → Node) (n : Node) (π : Path) :
  (∀ t a cs, q t a = true → Dom.matches q (f (Element t a cs)) = true) →
  Dom.first q n = Some π →
  Dom.first q (Dom.updateAt π f n) = Some π.
Proof.
  intros Hf. revert π.
  induction n as [t a cs IH | d] using Node_ind'; intros π H; [| discriminate].
  cbn in H. destruct (q t a) eqn:Hq.
  - injection H as <-. cbn. specialize (Hf t a cs Hq).
    destruct (f (Element t a cs)) as [t' a' cs' | d]; [| done]. cbn in *. by rewrite Hf.
  - apply firstAmong_Some in H as (k & c & π' & -> & Hk & Hfind & Hbefore).
    cbn. rewrite Hq. apply (firstAmong_alter _ _ _ 0%nat k c); auto.
    rewrite Forall_lookup in IH. by apply (IH k c).
Qed.

Lemma byId_classListAdd (id token : string) (t : string) (a : list (string * string))
    (cs : list Node) :
  Dom.byId id t a = true →
  Dom.matches (Dom.byId id) (Dom.classListAdd token (Element t a cs)) = true.
Proof.
  cbn. unfold Dom.byId. destruct id; [done |].
  by rewrite attribute_setAttribute_ne.
Qed.

(** X17. Where the configuration names an active item, the element that
    has that identifier after [setupDynamicContent], if there is one, has
    the class [active]. *)
Theorem setupDynamicContent_navActive (pg : Page) (cfg : PageConfig) (itemId : string)
    (item : Path) :
  navActive cfg = Some itemId → itemId ≠ EmptyString →
  let pg' := after (setupDynamicContent (Some cfg)) pg in
  Dom.first (Dom.byId itemId) (document pg') = Some item →
  hasClass "active" item pg' = true.
Proof.
  intros Hnav Hid. cbn zeta. unfold after, hasClass.
  rewrite setupDynamicContent_run. cbn [snd].
  assert (document (withDocument (withNavActive cfg (document pg)) pg) =
            withNavActive cfg (document pg)) as -> by (by destruct pg).
  unfold withNavActive. rewrite Hnav, truthy_Some by done. cbn [default from_option id].
  destruct (Dom.first (Dom.byId itemId) (withIcon cfg (document pg))) as [el |] eqn:Hel.
  - rewrite (first_updateAt_matching _ _ _ _ (byId_classListAdd itemId "active") Hel).
    intros [= <-]. destruct (first_nodeAt _ _ _ Hel) as (t & a & cs & Hnode & _).
    rewrite (nodeAt_updateAt _ _ _ _ Hnode). cbn [from_option].
    apply contains_add, token_active.
  - by rewrite Hel.
Qed.

Lemma setupDynamicContent_title_witness :
  let pg := freshPage "/telas2/app/vereadores.html" headerDocument ∅ in
  let pg' := after (setupDynamicContent (Some vereadoresConfig)) pg in
  outcome (setupDynamicContent (Some vereadoresConfig)) pg = Normal () ∧
  Dom.children <$> Dom.nodeAt [0; 0]%nat (document pg') = Some [TextNode "Vereadores"] ∧
  withDocument (document pg) pg' = pg.
Proof.
  cbn zeta.
  refine (setupDynamicContent_title
            (freshPage "/telas2/app/vereadores.html" headerDocument ∅)
            vereadoresConfig "Vereadores" [0; 0]%nat _ _ _).
  - reflexivity.
  - discriminate.
  - reflexivity.
Defined.

Lemma setupDynamicContent_navActive_witness :
  let pg := freshPage "/telas2/app/vereadores.html" headerDocument ∅ in
  hasClass "active" [0; 1]%nat (after (setupDynamicContent (Some vereadoresConfig)) pg) = true.
Proof.
  cbn zeta.
  refine (setupDynamicContent_navActive
            (freshPage "/telas2/app/vereadores.html" headerDocument ∅)
            vereadoresConfig "nav-vereadores" [0; 1]%nat _ _ _).
  - reflexivity.
  - discriminate.
  - vm_compute. reflexivity.
Defined.

(** ** Clicks on the links of the navigation *)

Lemma allAmong_elem_of (find : Node → list Path) (l : list Node) (i : nat) (π : Path) :
  π ∈ Dom.allAmong find i l →
  ∃ k c π', π = (i + k)%nat :: π' ∧ l !! k = Some c ∧ π' ∈ find c.
Proof.
  revert i. induction l as [| c l IH]; intros i H; cbn in H; [by apply elem_of_nil in H |].
  apply elem_of_app in H as [H | H].
  - apply list_elem_of_fmap in H as (π' & -> & Hπ'). exists 0%nat, c, π'.
    by rewrite Nat.add_0_r.
  - apply IH in H as (k & c' & π' & -> & Hk & Hπ'). exists (S k), c', π'.
    by rewrite Nat.add_succ_r.
Qed.

(** Every match is an element of the document and satisfies the selector. *)
Lemma all_nodeAt (q : Dom.Selector) (n : Node) (π : Path) :
  π ∈ Dom.all q n → ∃ t a cs, Dom.nodeAt π n = Some (Element t a cs) ∧ q t a = true.
Proof.
  revert π. induction n as [t a cs IH | d] using Node_ind'; intros π H; cbn in H;
    [| by apply elem_of_nil in H].
  apply elem_of_app in H as [H | H].
  - destruct (q t a) eqn:Hq; [| by apply elem_of_nil in H].
    apply list_elem_of_singleton in H as ->. by exists t, a, cs.
  - apply allAmong_elem_of in H as (k & c & π' & -> & Hk & Hπ').
    cbn. rewrite Hk. cbn. rewrite Forall_lookup in IH. by apply (IH k c).
Qed.

(** X18. A click on a link [a[data-page]] of the document goes where its
    attribute says: the listener calls [navigateToPage] with the value of
    [data-page], which the link has, so the page name is never [null]. *)
Theorem onNavLinkClick_navigates (pg : Page) (link : Path) :
  link ∈ Dom.all Dom.navLink (document pg) →
  ∃ t a cs pageName,
    Dom.nodeAt link (document pg) = Some (Element t a cs) ∧
    Dom.attribute "data-page" a = Some pageName ∧
    onNavLinkClick link pg = navigateToPage pageName pg.
Proof.
  intros (t & a & cs & Hnode & Hq)%all_nodeAt. unfold Dom.navLink in Hq.
  apply andb_true_iff in Hq as [_ [pageName Hattr]%bool_decide_eq_true].
  exists t, a, cs, pageName. split; [done |]. split; [done |].
  unfold onNavLinkClick, reads. unfold mbind at 1, M_bind at 1.
  rewrite Hnode. cbn. by rewrite Hattr.
Qed.

Lemma onNavLinkClick_navigates_witness :
  let pg := freshPage "/telas2/app/dashboard.html" headerDocument ∅ in
  ∃ t a cs pageName,
    Dom.nodeAt [0; 1]%nat (document pg) = Some (Element t a cs) ∧
    Dom.attribute "data-page" a = Some pageName ∧
    onNavLinkClick [0; 1]%nat pg = navigateToPage pageName pg.
Proof.
  cbn zeta.
  refine (onNavLinkClick_navigates (freshPage "/telas2/app/dashboard.html" headerDocument ∅)
            [0; 1]%nat _).
  vm_compute. by left.
Defined.

(** ** Status dropdowns *)

Lemma allAmong_intro (find : Node → list Path) (l : list Node) (i k : nat) (c : Node)
    (π : Path) :
  l !! k = Some c → π ∈ find c → (i + k)%nat :: π ∈ Dom.allAmong find i l.
Proof.
  revert i k. induction l as [| c0 l IH]; intros i k Hk Hπ; [done |].
  cbn. apply elem_of_app. destruct k as [| k]; cbn in Hk.
  - injection Hk as ->. left. rewrite Nat.add_0_r. apply list_elem_of_fmap. by exists π.
  - right. rewrite Nat.add_succ_r. by apply (IH (S i) k).
Qed.

(** The matches of a selector are the places whose element matches it. *)
Lemma elem_of_all (q : Dom.Selector) (n : Node) (p : Path) :
  p ∈ Dom.all q n ↔ matching q n p = true.
Proof.
  unfold matching. split.
  - intros (t & a & cs & -> & Hq)%all_nodeAt. done.
  - revert n. induction p as [| i p IH]; intros n H.
    + destruct n as [t a cs | d]; [| done]. cbn in H. cbn. rewrite H.
      apply elem_of_app. left. by left.
    + destruct n as [t a cs | d]; [| done]. cbn in H.
      destruct (cs !! i) as [c |] eqn:Hc; [| done]. cbn in H.
      cbn. apply elem_of_app. right. apply (allAmong_intro _ _ 0%nat i c); auto.
Qed.

Lemma matches_updateAt_head (q : Dom.Selector) (i : nat) (π : Path) (f : Node → Node)
    (n : Node) :
  Dom.matches q (Dom.updateAt (i :: π) f n) = Dom.matches q n.
Proof. by destruct n. Qed.

(** An update elsewhere changes no match at [p]. *)
Lemma matching_updateAt_other (q : Dom.Selector) (π p : Path) (f : Node → Node)
    (doc : Node) :
  shallow f → π ≠ p → matching q (Dom.updateAt π f doc) p = matching q doc p.
Proof.
  intros Hf Hne. unfold matching.
  destruct (decide (p `prefix_of` π)) as [[rest ->] | Hp].
  - rewrite nodeAt_updateAt_below. destruct (Dom.nodeAt p doc) as [m |]; [| done].
    destruct rest as [| i rest]; [by rewrite app_nil_r in Hne |]. cbn.
    apply matches_updateAt_head.
  - by rewrite nodeAt_updateAt_apart.
Qed.

Lemma matching_closed (p : Path) (doc : Node) :
  matching openDropdown (Dom.updateAt p (ClassList.remove "open") doc) p = false.
Proof.
  unfold matching. rewrite nodeAt_updateAt_same.
  destruct (Dom.nodeAt p doc) as [m |]; [| done]. cbn.
  pose proof (contains_remove "open" m) as Hclosed. unfold ClassList.contains in Hclosed.
  destruct (ClassList.remove "open" m) as [t a cs | d]; [| done]. cbn in *.
  unfold openDropdown. by rewrite Hclosed, andb_false_r.
Qed.

Lemma closeUnless_matching (exceptThisOne : option Path) (l : list Path) (doc : Node)
    (p : Path) :
  matching openDropdown (foldl (closeUnless exceptThisOne) doc l) p =
    matching openDropdown doc p &&
    negb (bool_decide (p ∈ l) && negb (bool_decide (exceptThisOne = Some p))).
Proof.
  revert doc. induction l as [| x l IH]; intros doc.
  - cbn [foldl]. rewrite bool_decide_eq_false_2 by apply not_elem_of_nil.
    by rewrite andb_true_r.
  - cbn [foldl]. rewrite IH. unfold closeUnless.
    destruct (decide (p = x)) as [-> | Hne].
    + rewrite (bool_decide_eq_true_2 (x ∈ x :: l)) by (by left).
      destruct (decide (exceptThisOne = Some x)) as [Hex | Hex].
      * rewrite !(bool_decide_eq_true_2 _ Hex). by rewrite !andb_false_r.
      * rewrite !(bool_decide_eq_false_2 _ Hex), matching_closed. cbn.
        by rewrite andb_false_r.
    + assert (bool_decide (p ∈ x :: l) = bool_decide (p ∈ l)) as ->.
      { apply bool_decide_ext. rewrite elem_of_cons. tauto. }
      destruct (decide (exceptThisOne = Some x)) as [Hex | Hex].
      * by rewrite !(bool_decide_eq_true_2 _ Hex).
      * rewrite !(bool_decide_eq_false_2 _ Hex).
        by rewrite matching_updateAt_other by (apply shallow_remove || done).
Qed.

Lemma forEach_document {A} (l : list A) (f : A → M unit) (step : Node → A → Node)
    (pg : Page) :
  (∀ x pg, f x pg = (Normal (), withDocument (step (document pg) x) pg)) →
  forEach l f pg = (Normal (), withDocument (foldl step (document pg) l) pg).
Proof.
  intros Hf. revert pg. induction l as [| x l IH]; intros pg; cbn.
  - by destruct pg.
  - unfold mbind, M_bind. rewrite Hf, IH. by destruct pg.
Qed.

Lemma closeAllDropdowns_run (exceptThisOne : option Path) (pg : Page) :
  closeAllDropdowns exceptThisOne pg =
    (Normal (),
     withDocument
       (foldl (closeUnless exceptThisOne) (document pg)
          (Dom.all openDropdown (document pg)))
       pg).
Proof.
  unfold closeAllDropdowns, querySelectorAll, reads. unfold mbind at 1, M_bind at 1.
  apply forEach_document. intros x pg0. unfold closeUnless.
  case_bool_decide; by destruct pg0.
Qed.

(** X19. [closeAllDropdowns] closes every open status dropdown but the
    one it is told to leave: the dropdowns that are open after it are the
    one excepted, if it was open.  The listener on the window calls it with
    no exception, and leaves no status dropdown open. *)
Theorem closeAllDropdowns_closes (exceptThisOne : option Path) (pg : Page) :
  let pg' := after (closeAllDropdowns exceptThisOne) pg in
  outcome (closeAllDropdowns exceptThisOne) pg = Normal () ∧
  (∀ p, p ∈ Dom.all openDropdown (document pg') ↔
        exceptThisOne = Some p ∧ p ∈ Dom.all openDropdown (document pg)) ∧
  Dom.all openDropdown (document (after (closeAllDropdowns None) pg)) = [].
Proof.
  cbn zeta. unfold outcome, after. rewrite !closeAllDropdowns_run. cbn [fst snd].
  assert (∀ doc, document (withDocument doc pg) = doc) as Hdoc by (by destruct pg).
  rewrite !Hdoc. split; [done |].
  assert (∀ except p,
            p ∈ Dom.all openDropdown
                  (foldl (closeUnless except) (document pg)
                     (Dom.all openDropdown (document pg))) ↔
            except = Some p ∧ p ∈ Dom.all openDropdown (document pg)) as Hopen.
  { intros except p. rewrite !elem_of_all, closeUnless_matching.
    destruct (matching openDropdown (document pg) p) eqn:Hp.
    - rewrite bool_decide_eq_true_2 by (by apply elem_of_all). cbn.
      rewrite negb_involutive, bool_decide_eq_true. tauto.
    - cbn. split; [done | by intros [_ ?]]. }
  split; [apply Hopen |].
  destruct (Dom.all openDropdown (foldl _ _ _)) as [| p l] eqn:Hl; [done |].
  assert (p ∈ p :: l) as Hin by (by left). rewrite <- Hl in Hin.
  by apply Hopen in Hin as [? _].
Qed.

Lemma matching_closeUnless_None (doc : Node) (p : Path) :
  matching openDropdown
    (foldl (closeUnless None) doc (Dom.all openDropdown doc)) p = false.
Proof.
  rewrite closeUnless_matching. destruct (matching openDropdown doc p) eqn:Hp; [| done].
  by rewrite bool_decide_eq_true_2 by (by apply elem_of_all).
Qed.

(** Closing dropdowns takes no other class from an element. *)
Lemma closeUnless_keeps (exceptThisOne : option Path) (token : string) (l : list Path)
    (doc : Node) (p : Path) :
  token ≠ "open" →
  matching (Dom.byClass token) (foldl (closeUnless exceptThisOne) doc l) p =
    matching (Dom.byClass token) doc p.
Proof.
  intros Htoken. revert doc. induction l as [| x l IH]; intros doc; [done |].
  cbn [foldl]. rewrite IH. unfold closeUnless. case_bool_decide as Hex; [done |].
  destruct (decide (x = p)) as [-> | Hne].
  - unfold matching. rewrite nodeAt_updateAt_same.
    destruct (Dom.nodeAt p doc) as [m |]; [| done]. cbn.
    by apply (contains_remove_other "open" token m).
  - by apply matching_updateAt_other; [apply shallow_remove |].
Qed.

Lemma onBadgeClick_run (dropdown : Path) (pg : Page) :
  onBadgeClick dropdown pg =
    let closed :=
      withDocument
        (foldl (closeUnless None) (document pg) (Dom.all openDropdown (document pg))) pg in
    (Normal (),
     if hasClass "open" dropdown pg then closed
     else withDocument (Dom.updateAt dropdown (Dom.classListAdd "open") (document closed))
            closed).
Proof.
  unfold onBadgeClick, reads, hasClass. unfold mbind at 1, M_bind at 1.
  unfold mbind at 1, M_bind at 1. rewrite closeAllDropdowns_run. cbn zeta.
  by destruct (from_option _ _ _).
Qed.

Lemma token_open : isToken "open".
Proof. by split. Qed.

(** X20. After a click on the badge of a status dropdown no other status
    dropdown is open, and the one clicked is open exactly if it was closed
    before: at most one status dropdown is open at a time. *)
Theorem onBadgeClick_one_open (pg : Page) (dropdown : Path) :
  dropdown ∈ Dom.all (Dom.byClass "status-dropdown") (document pg) →
  let pg' := after (onBadgeClick dropdown) pg in
  outcome (onBadgeClick dropdown) pg = Normal () ∧
  ∀ p, p ∈ Dom.all openDropdown (document pg') ↔
       p = dropdown ∧ hasClass "open" dropdown pg = false.
Proof.
  intros Hdropdown. cbn zeta. unfold outcome, after. rewrite onBadgeClick_run.
  cbn zeta. cbn [fst snd]. split; [done |]. intros p.
  assert (∀ doc pg0, document (withDocument doc pg0) = doc) as Hdoc by (by intros ? []).
  rewrite elem_of_all.
  destruct (hasClass "open" dropdown pg) eqn:Hopen.
  - rewrite Hdoc, matching_closeUnless_None. split; [done | by intros [_ ?]].
  - rewrite !Hdoc. set (closed := foldl _ _ _).
    destruct (decide (dropdown = p)) as [<- | Hne].
    + split; [done | intros _]. unfold matching. rewrite nodeAt_updateAt_same.
      apply elem_of_all in Hdropdown.
      rewrite <- (closeUnless_keeps None "status-dropdown"
                    (Dom.all openDropdown (document pg))) in Hdropdown by done.
      fold closed in Hdropdown. unfold matching in Hdropdown.
      destruct (Dom.nodeAt dropdown closed) as [[t a cs | d] |]; try done.
      cbn [fmap option_fmap option_map from_option].
      pose proof (contains_add "open" t a cs token_open) as Hadd.
      pose proof (contains_add_other "open" "status-dropdown" (Element t a cs) token_open)
        as Hkeep.
      unfold ClassList.contains in Hadd, Hkeep.
      destruct (Dom.classListAdd "open" (Element t a cs)) as [t' a' cs' | d]; [| done].
      cbn in *. unfold openDropdown. rewrite Hadd, Hkeep by done. by rewrite Hdropdown.
    + rewrite matching_updateAt_other by (apply shallow_add || done).
      unfold closed. rewrite matching_closeUnless_None. split; [done | by intros [? _]].
Qed.

Lemma onBadgeClick_one_open_witness :
  let pg := freshPage "/telas2/app/cadastro_de_pautas.html" statusDocument ∅ in
  let pg' := after (onBadgeClick [0; 1]%nat) pg in
  Dom.all openDropdown (document pg) = [[0; 0]%nat] ∧
  outcome (onBadgeClick [0; 1]%nat) pg = Normal () ∧
  ∀ p, p ∈ Dom.all openDropdown (document pg') ↔
       p = [0; 1]%nat ∧ hasClass "open" [0; 1]%nat pg = false.
Proof.
  cbn zeta. split; [reflexivity |].
  refine (onBadgeClick_one_open
            (freshPage "/telas2/app/cadastro_de_pautas.html" statusDocument ∅)
            [0; 1]%nat _).
  vm_compute. right. by left.
Defined.

(** ** The page after [initLayout] *)

Lemma after_seq {B} (m : M unit) (k : M B) (pg : Page) :
  harmless m → after (m;; k) pg = after k (after m pg).
Proof.
  intros Hm. destruct (Hm pg) as ([[] Hout] & _). by apply (after_bind m (λ _, k) pg ()).
Qed.

Lemma navigations_registered (pg : Page) (link : Path) :
  link ∈ Dom.all Dom.navLink (document pg) → link ∈ navigations (registered pg).
Proof.
  intros Hlink. unfold registered. rewrite !navigations_app, navigations_Navigate.
  apply elem_of_app. right. apply elem_of_app. by left.
Qed.

Section LayoutReady.

Variable parseHTML : string → string → list Node.
Variable server : list Request → FetchOutcome.

(** X21. After [initLayout], whatever was loaded, the layout needs no
    repair (the main content has its wrapper, or has no section to wrap,
    or is not there), and every link [a[data-page]] of the document, those
    of the loaded fragments included, has a click listener for
    navigation. *)
Theorem initLayout_ready (pageConfig : option PageConfig) (pg : Page) :
  let pg' := after (initLayout parseHTML server pageConfig) pg in
  settled (document pg') ∧
  ∀ link, link ∈ Dom.all Dom.navLink (document pg') → link ∈ navigations (listeners pg').
Proof.
  cbn zeta. unfold after at 1 2 3. rewrite initLayout_branches. cbn zeta.
  set (loads := if Str.includes "/admin/" (pathname pg) then _ else _).
  assert (harmless loads) as Hloads.
  { unfold loads.
    repeat match goal with
           | |- harmless (if ?b then _ else _) => destruct b
           end;
      try apply harmless_ret;
      (apply harmless_bind; [| intros _]); apply loadComponent_harmless. }
  fold (after (loads;; finishLayout pageConfig) pg). rewrite (after_seq _ _ _ Hloads).
  unfold finishLayout. rewrite (after_seq _ _ _ (setupDynamicContent_harmless pageConfig)).
  rewrite (after_seq _ _ _ autoFix_harmless).
  set (repaired := after autoFixFormSectionLayout _).
  pose proof (autoFix_settles (after (setupDynamicContent pageConfig) (after loads pg)))
    as Hsettled.
  fold repaired in Hsettled. unfold after. rewrite setupEventListeners_run. cbn [snd].
  assert (document (withListeners (registered repaired) repaired) = document repaired) as ->
    by (by destruct repaired).
  assert (listeners (withListeners (registered repaired) repaired) = registered repaired)
    as -> by (by destruct repaired).
  split; [done |]. intros link. apply navigations_registered.
Qed.

End LayoutReady.
